(** * Token refresher with exponential / constant backoff (backoff.go)

    A shallow embedding of the token refresher: the token cache guarded
    by a reader/writer mutex, the refresh engine ([refresh],
    [refreshInner]), the accessors ([GetToken], [Refresh], [Close]) and
    the scheduler goroutine ([refresher]), followed by the properties of
    the engine.

    The refresher goroutine is modelled sequentially, in a small state
    and outcome monad.  Everything that other goroutines and the clock
    decide is an oracle of the environment: how many ticks the
    exponential ticker delivers before its channel is closed, and at
    which [select] the [done] case is taken.  Every step of the
    goroutine is recorded in a history together with the state of the
    token cache a concurrent reader would find at that moment. *)

From Stdlib Require Import ZArith String List Bool Arith Lia DecimalString.
Import ListNotations.

Local Open Scope string_scope.
Local Open Scope nat_scope.
Local Open Scope list_scope.

(** ** Durations ([time.Duration] is an [int64] count of nanoseconds) *)

Definition Duration := Z.

Definition wrap64 (x : Z) : Z := ((x + 2 ^ 63) mod 2 ^ 64 - 2 ^ 63)%Z.

Definition int64_range (x : Z) : Prop := (- 2 ^ 63 <= x < 2 ^ 63)%Z.

(** [a - b] on [int64]. *)
Definition duration_sub (a b : Duration) : Duration := wrap64 (a - b).

(** [k * d] on [int64]. *)
Definition duration_mul (k d : Duration) : Duration := wrap64 (k * d).

Definition time_Nanosecond : Duration := 1%Z.
Definition time_Microsecond : Duration := (1000 * time_Nanosecond)%Z.
Definition time_Millisecond : Duration := (1000 * time_Microsecond)%Z.
Definition time_Second : Duration := (1000 * time_Millisecond)%Z.
Definition time_Minute : Duration := (60 * time_Second)%Z.

Arguments wrap64 : simpl never.
Arguments duration_sub : simpl never.
Arguments duration_mul : simpl never.
Arguments time_Second : simpl never.
Arguments time_Minute : simpl never.

(** ** Errors

    Go compares [error] values by identity: [ErrShutdown] is one
    package-level value, every other error comes from [errors.New]. *)

Inductive error : Type :=
| ErrShutdown
| errors_New (text : string).

Definition is_ErrShutdown (e : error) : bool :=
  match e with
  | ErrShutdown => true
  | errors_New _ => false
  end.

Definition error_text (e : error) : string :=
  match e with
  | ErrShutdown => "TokenRefresher closing"
  | errors_New s => s
  end.

Definition ErrInvalidOrExpired : error := errors_New "Token is invalid or expired".

(** ** Channels of [struct{}] and the reader/writer mutex *)

Record chan : Type := mkChan {
  capacity : nat;   (* buffer size given to make *)
  queued : nat;     (* values sitting in the buffer *)
  recvq : nat;      (* goroutines parked on a receive *)
  closed : bool
}.

Definition make_chan (size : nat) : chan :=
  {| capacity := size; queued := 0; recvq := 0; closed := false |}.

Inductive send_result : Type :=
| SendDelivered   (* handed to a parked receiver, or buffered *)
| SendDefault     (* nobody to take it: the default case runs *)
| SendPanic.      (* send on a closed channel *)

(** [select { case c <- struct{}{}: default: }] *)
Definition select_send_default (c : chan) : chan * send_result :=
  if closed c then (c, SendPanic)
  else match recvq c with
       | S n => (mkChan (capacity c) (queued c) n (closed c), SendDelivered)
       | O =>
           if (queued c <? capacity c)%nat
           then (mkChan (capacity c) (S (queued c)) 0 (closed c), SendDelivered)
           else (c, SendDefault)
       end.

Definition close_chan (c : chan) : chan :=
  mkChan (capacity c) (queued c) (recvq c) true.

Definition park_receiver (c : chan) : chan :=
  mkChan (capacity c) (queued c) (S (recvq c)) (closed c).

Definition unpark_receiver (c : chan) : chan :=
  mkChan (capacity c) (queued c) (pred (recvq c)) (closed c).

Record RWMutex : Type := mkRWMutex {
  writer : bool;    (* the exclusive lock is held *)
  readers : nat     (* holders of the shared lock *)
}.

Definition mutex_free : RWMutex := mkRWMutex false 0.

(** ** The token refresher *)

Record tokenRefresher : Type := mkTokenRefresher {
  refreshBuffer : Duration;
  closeOnce : bool;          (* sync.Once: has Do already run? *)
  done : chan;
  force : chan;
  mu : RWMutex;
  token : string
}.

Definition with_token (t : string) (m : tokenRefresher) : tokenRefresher :=
  mkTokenRefresher (refreshBuffer m) (closeOnce m) (done m) (force m) (mu m) t.

Definition with_mu (l : RWMutex) (m : tokenRefresher) : tokenRefresher :=
  mkTokenRefresher (refreshBuffer m) (closeOnce m) (done m) (force m) l (token m).

Definition with_force (c : chan) (m : tokenRefresher) : tokenRefresher :=
  mkTokenRefresher (refreshBuffer m) (closeOnce m) (done m) c (mu m) (token m).

(** [NewTokenRefresher]: both channels are unbuffered; the goroutine it
    spawns is [refresher] below. *)
Definition NewTokenRefresher (refreshBuffer : Duration) : tokenRefresher :=
  {| refreshBuffer := refreshBuffer;
     closeOnce := false;
     done := make_chan 0;
     force := make_chan 0;
     mu := mutex_free;
     token := "" |}.

(** [Close]: [closeOnce.Do(func() { close(m.done) })], always returns nil. *)
Definition Close (m : tokenRefresher) : tokenRefresher * option error :=
  if closeOnce m then (m, None)
  else (mkTokenRefresher (refreshBuffer m) true (close_chan (done m))
          (force m) (mu m) (token m), None).

(** ** The retriever interface and the backoff policies *)

Definition retrieved : Type := (string * Duration * option error)%type.

Class TokenRetriever (R : Type) : Type :=
  RetrieveToken : R -> R * retrieved.

Arguments RetrieveToken {R _} _ : simpl never.

Inductive BackOff : Type :=
| ExponentialBackOff (MaxElapsedTime : Duration)
| ConstantBackOff (Interval : Duration).

(** What is left of a ticker: [Some n] delivers [n] more ticks and then
    its channel is closed, [None] ticks for ever. *)
Definition Ticker : Type := option nat.

Record Env : Type := mkEnv {
  (* the clock: how many ticks, after the first one, the exponential
     ticker with the given maximum elapsed time delivers before it
     stops; None when it never stops *)
  exponentialTicks : Duration -> option nat;
  (* the scheduler: is the done case taken at the i-th select of the
     refresher goroutine (some goroutine has called Close by then)? *)
  shutdownAt : nat -> bool
}.

(** A ticker ticks at least once; the constant policy never stops. *)
Definition NewTicker (env : Env) (b : BackOff) : Ticker :=
  match b with
  | ConstantBackOff _ => None
  | ExponentialBackOff maxElapsed =>
      match exponentialTicks env maxElapsed with
      | Some n => Some (S n)
      | None => None
      end
  end.

(** ** Events of the refresher goroutine *)

Inductive event : Type :=
| EvLock
| EvUnlock
| EvRetrieve (tok : string) (expiresIn : Duration) (err : option error)
| EvSetToken (tok : string)
| EvTick
| EvTickerClosed
| EvDone
| EvCrit (msg : string)
| EvError (msg : string).

Inductive deferred : Type :=
| DeferUnlock
| DeferRUnlock.

Section Engine.

Context {R : Type} {retriever : TokenRetriever R}.
Variable env : Env.

Record World : Type := mkWorld {
  self : tokenRefresher;
  retr : R;                   (* the state behind m.retriever *)
  calls : nat;                (* calls to RetrieveToken so far *)
  selects : nat;              (* selects executed so far *)
  defers : list deferred;     (* deferred calls of the running function *)
  history : list (event * tokenRefresher)
}.

Inductive outcome (A : Type) : Type :=
| Returned (a : A) (w : World)
| OutOfFuel            (* still looping when the fuel ran out *)
| Blocked              (* waiting for the mutex *)
| Fatal (msg : string).

Arguments Returned {A} a w.
Arguments OutOfFuel {A}.
Arguments Blocked {A}.
Arguments Fatal {A} msg.

Definition M (A : Type) : Type := World -> outcome A.

Definition ret {A : Type} (a : A) : M A := fun w => Returned a w.

Definition bind {A B : Type} (c : M A) (k : A -> M B) : M B :=
  fun w =>
    match c w with
    | Returned a w' => k a w'
    | OutOfFuel => OutOfFuel
    | Blocked => Blocked
    | Fatal msg => Fatal msg
    end.

Notation "x <- c ;; k" := (bind c (fun x => k))
  (at level 61, c at next level, right associativity).
Notation "c ;;; k" := (bind c (fun _ => k))
  (at level 61, right associativity).

Definition set_self (m : tokenRefresher) (w : World) : World :=
  mkWorld m (retr w) (calls w) (selects w) (defers w) (history w).

(** Record an event with the cache as it is once the event has happened. *)
Definition emit (e : event) (w : World) : World :=
  mkWorld (self w) (retr w) (calls w) (selects w) (defers w)
          (history w ++ [(e, self w)]).

(** *** The mutex *)

Definition Lock : M unit := fun w =>
  let l := mu (self w) in
  if writer l || negb (readers l =? 0)%nat then Blocked
  else Returned tt (emit EvLock (set_self (with_mu (mkRWMutex true 0) (self w)) w)).

Definition Unlock : M unit := fun w =>
  let l := mu (self w) in
  if writer l
  then Returned tt (emit EvUnlock
                      (set_self (with_mu (mkRWMutex false (readers l)) (self w)) w))
  else Fatal "sync: Unlock of unlocked RWMutex".

Definition RLock : M unit := fun w =>
  let l := mu (self w) in
  if writer l then Blocked
  else Returned tt (set_self (with_mu (mkRWMutex false (S (readers l))) (self w)) w).

Definition RUnlock : M unit := fun w =>
  let l := mu (self w) in
  match readers l with
  | S n => Returned tt (set_self (with_mu (mkRWMutex (writer l) n) (self w)) w)
  | O => Fatal "sync: RUnlock of unlocked RWMutex"
  end.

Definition with_defers (ds : list deferred) (w : World) : World :=
  mkWorld (self w) (retr w) (calls w) (selects w) ds (history w).

Definition defer (d : deferred) : M unit :=
  fun w => Returned tt (with_defers (d :: defers w) w).

Definition run_deferred (d : deferred) : M unit :=
  match d with
  | DeferUnlock => Unlock
  | DeferRUnlock => RUnlock
  end.

Fixpoint run_defers (ds : list deferred) : M unit :=
  match ds with
  | [] => ret tt
  | d :: ds' => run_deferred d ;;; run_defers ds'
  end.

(** A function call: the body, then its deferred calls, last one first. *)
Definition call {A : Type} (body : M A) : M A :=
  fun w =>
    match body (with_defers [] w) with
    | Returned a w1 =>
        match run_defers (defers w1) (with_defers [] w1) with
        | Returned _ w2 => Returned a (with_defers (defers w) w2)
        | OutOfFuel => OutOfFuel
        | Blocked => Blocked
        | Fatal msg => Fatal msg
        end
    | OutOfFuel => OutOfFuel
    | Blocked => Blocked
    | Fatal msg => Fatal msg
    end.

(** *** Collaborators *)

(** The world once the retriever has answered. *)
Definition retrieved_world (r' : R) (res : retrieved) (w : World) : World :=
  let '(tok, expiresIn, err) := res in
  emit (EvRetrieve tok expiresIn err)
    (mkWorld (self w) r' (S (calls w)) (selects w) (defers w) (history w)).

Definition retriever_RetrieveToken : M retrieved := fun w =>
  let '(r', res) := RetrieveToken (retr w) in
  Returned res (retrieved_world r' res w).

Definition logger_Crit (msg : string) : M unit :=
  fun w => Returned tt (emit (EvCrit msg) w).

Definition logger_Error (msg : string) : M unit :=
  fun w => Returned tt (emit (EvError msg) w).

Inductive selected : Type :=
| FromTicker (ok : bool)
| FromDone.

(** The world once a select has taken the case that [ev] names; [m] is
    the refresher as the other goroutines have left it by then. *)
Definition selected_world (ev : event) (m : tokenRefresher) (w : World) : World :=
  emit ev (mkWorld m (retr w) (calls w) (S (selects w)) (defers w) (history w)).

(** [select { case _, ok := <-ticker.C: ... case <-done: ... }] *)
Definition select_ticker_done (tk : Ticker) : M (selected * Ticker) := fun w =>
  if shutdownAt env (selects w)
  then Returned (FromDone, tk) (selected_world EvDone (fst (Close (self w))) w)
  else match tk with
       | Some O =>
           Returned (FromTicker false, Some O) (selected_world EvTickerClosed (self w) w)
       | Some (S n) =>
           Returned (FromTicker true, Some n) (selected_world EvTick (self w) w)
       | None =>
           Returned (FromTicker true, None) (selected_world EvTick (self w) w)
       end.

(** ** The token cache accessors *)

(** [setToken] *)
Definition setToken (t : string) : M unit :=
  fun w => Returned tt (emit (EvSetToken t) (set_self (with_token t (self w)) w)).

(** [GetToken] *)
Definition GetToken : M (string * option error) :=
  call (RLock ;;;
        defer DeferRUnlock ;;;
        fun w =>
          let err := if (token (self w) =? "")%string
                     then Some ErrInvalidOrExpired else None in
          Returned (token (self w), err) w).

(** [Refresh] *)
Definition Refresh : M unit := fun w =>
  match select_send_default (force (self w)) with
  | (c, SendPanic) => Fatal "send on closed channel"
  | (c, _) => Returned tt (set_self (with_force c (self w)) w)
  end.

(** ** The refresh engine *)

(** The loop of [refreshInner]; [err] is the named result, which holds
    the last error of the retriever. *)
Fixpoint refreshInner_loop (fuel : nat) (ticker : Ticker) (err : option error)
  : M retrieved :=
  match fuel with
  | O => fun _ => OutOfFuel
  | S fuel' =>
      s <- select_ticker_done ticker ;;
      match s with
      | (FromTicker false, _) => ret ("", 0%Z, err)
      | (FromTicker true, ticker') =>
          r <- retriever_RetrieveToken ;;
          match r with
          | (tok, expiresIn, Some rErr) =>
              logger_Error "Failed to refresh token. Retrying..." ;;;
              refreshInner_loop fuel' ticker' (Some rErr)
          | (tok, expiresIn, None) => ret (tok, expiresIn, None)
          end
      | (FromDone, _) => ret ("", 0%Z, Some ErrShutdown)
      end
  end.

Definition refreshInner (fuel : nat) (b : BackOff) : M retrieved :=
  refreshInner_loop fuel (NewTicker env b) None.

(** [refresh] once the exponential phase has failed with an error other
    than [ErrShutdown]: the rest of the body of [if err != nil], and the
    two statements after it. *)
Definition refresh_expired (fuel : nat) (force : bool) (tok : string)
    (rb : Duration) : M (Duration * option error) :=
  (if negb force
   then Lock ;;;
        defer DeferUnlock ;;;
        setToken tok ;;;
        logger_Crit "Could not refresh token within refresh buffer. Stored token is now expired"
   else ret tt) ;;;
  r <- refreshInner fuel (ConstantBackOff (duration_mul 1%Z time_Minute)) ;;
  match r with
  | (tok2, expiresIn2, Some ErrShutdown) => ret (0%Z, Some ErrShutdown)
  | (tok2, expiresIn2, _) =>
      setToken tok2 ;;;
      ret (duration_sub expiresIn2 rb, None)
  end.

(** [refresh] from the creation of the exponential policy on. *)
Definition refresh_backoff (fuel : nat) (force : bool) : M (Duration * option error) :=
  fun w0 =>
  let rb := refreshBuffer (self w0) in
  (r <- refreshInner fuel (ExponentialBackOff (duration_sub rb time_Second)) ;;
   match r with
   | (tok, expiresIn, None) =>
       setToken tok ;;;
       ret (duration_sub expiresIn rb, None)
   | (tok, expiresIn, Some err) =>
       if is_ErrShutdown err then ret (0%Z, Some err)
       else refresh_expired fuel force tok rb
   end) w0.

(** [refresh] *)
Definition refresh (fuel : nat) (force : bool) : M (Duration * option error) :=
  call (fun w0 =>
    let rb := refreshBuffer (self w0) in
    (if force
     then Lock ;;;
          defer DeferUnlock ;;;
          r <- retriever_RetrieveToken ;;
          match r with
          | (tok, expiresIn, None) =>
              setToken tok ;;;
              ret (duration_sub expiresIn rb, None)
          | (tok, expiresIn, Some err) =>
              setToken tok ;;;
              logger_Crit "Force refresh failed" ;;;
              refresh_backoff fuel force
          end
     else refresh_backoff fuel force) w0).

(** ** The scheduler goroutine

    [refresher] as a transition system: where the goroutine stands, and
    the actions of the goroutine itself and of the callers of the public
    methods, interleaved in any order. *)

Inductive refresher_pc : Type :=
| AtStartup     (* about to run the startup refresh(true) *)
| AtSelect      (* parked in the select on timer.C, m.force and m.done *)
| RunTimed      (* took timer.C: refresh(false) is pending or running *)
| RunForced     (* took m.force: refresh(true) is pending or running *)
| Exited.

Record System : Type := mkSystem {
  world : World;
  pc : refresher_pc;
  timer : option Duration;  (* what the timer was last armed with *)
  wakeups : nat             (* receives from m.force so far *)
}.

Inductive action : Type :=
| CallRefresh               (* a goroutine calls Refresh *)
| CallClose                 (* a goroutine calls Close *)
| TimerFires                (* the select takes case <-timer.C *)
| TakeDone                  (* the select takes case <-m.done *)
| RunRefresh (fuel : nat).  (* the pending refresh runs until it returns *)

Definition start_world (m : tokenRefresher) (r : R) : World :=
  mkWorld m r 0 0 [] [].

(** The system right after [NewTokenRefresher] has spawned the goroutine. *)
Definition boot (refreshBuffer : Duration) (r : R) : System :=
  mkSystem (start_world (NewTokenRefresher refreshBuffer) r) AtStartup None 0.

Definition leave_select (w : World) : World :=
  set_self (with_force (unpark_receiver (force (self w))) (self w)) w.

Definition enter_select (w : World) : World :=
  set_self (with_force (park_receiver (force (self w))) (self w)) w.

(** What [refresher] does with the result of a [refresh]. *)
Definition after_refresh (s : System) (o : outcome (Duration * option error)) : System :=
  match o with
  | Returned (_, Some ErrShutdown) w' => mkSystem w' Exited (timer s) (wakeups s)
  | Returned (expWithBuffer, _) w' =>
      mkSystem (enter_select w') AtSelect (Some expWithBuffer) (wakeups s)
  | _ => s
  end.

Definition step (a : action) (s : System) : System :=
  match a with
  | CallRefresh =>
      match Refresh (world s) with
      | Returned _ w' =>
          match select_send_default (force (self (world s))), pc s with
          | (_, SendDelivered), AtSelect => mkSystem w' RunForced (timer s) (S (wakeups s))
          | _, _ => mkSystem w' (pc s) (timer s) (wakeups s)
          end
      | _ => s
      end
  | CallClose =>
      mkSystem (set_self (fst (Close (self (world s)))) (world s))
               (pc s) (timer s) (wakeups s)
  | TimerFires =>
      match pc s with
      | AtSelect => mkSystem (leave_select (world s)) RunTimed (timer s) (wakeups s)
      | _ => s
      end
  | TakeDone =>
      match pc s with
      | AtSelect =>
          if closed (done (self (world s)))
          then mkSystem (leave_select (world s)) Exited (timer s) (wakeups s)
          else s
      | _ => s
      end
  | RunRefresh fuel =>
      match pc s with
      | AtStartup => after_refresh s (refresh fuel true (world s))
      | RunTimed => after_refresh s (refresh fuel false (world s))
      | RunForced => after_refresh s (refresh fuel true (world s))
      | _ => s
      end
  end.

Fixpoint run (acts : list action) (s : System) : System :=
  match acts with
  | [] => s
  | a :: acts' => run acts' (step a s)
  end.

(** Force requests accepted and not yet served by the goroutine. *)
Definition outstanding (s : System) : nat :=
  queued (force (self (world s))) +
  match pc s with RunForced => 1 | _ => 0 end.

Definition is_CallRefresh (a : action) : bool :=
  match a with
  | CallRefresh => true
  | _ => false
  end.

Definition is_RunRefresh (a : action) : bool :=
  match a with
  | RunRefresh _ => true
  | _ => false
  end.

Definition count_actions (p : action -> bool) (acts : list action) : nat :=
  length (filter p acts).

(** Is the goroutine parked at its select? *)
Definition parked (s : System) : nat :=
  match pc s with
  | AtSelect => 1
  | _ => 0
  end.

(** What holds of the mutex and of the force channel between any two
    actions: the mutex is free, the channel is the unbuffered, open one
    that [NewTokenRefresher] made, and the only receiver ever parked on
    it is the goroutine standing at its select. *)
Definition system_inv (s : System) : Prop :=
  mu (self (world s)) = mutex_free /\
  capacity (force (self (world s))) = 0 /\
  queued (force (self (world s))) = 0 /\
  closed (force (self (world s))) = false /\
  recvq (force (self (world s))) = match pc s with AtSelect => 1 | _ => 0 end.

(** ** Vocabulary of the statements *)

(** The retriever fails [k] times in a row, with errors of its own,
    and is left in state [r_end]. *)
Fixpoint keeps_failing (k : nat) (r r_end : R) : Prop :=
  match k with
  | O => r_end = r
  | S k' =>
      exists r1 tok expiresIn e,
        RetrieveToken r = (r1, (tok, expiresIn, Some e)) /\
        is_ErrShutdown e = false /\
        keeps_failing k' r1 r_end
  end.

(** The retriever fails exactly [k] times and then succeeds with
    [tok] and [validity]. *)
Definition fails_then_succeeds (k : nat) (r : R) (tok : string)
    (validity : Duration) (r_end : R) : Prop :=
  exists r1, keeps_failing k r r1 /\
             RetrieveToken r1 = (r_end, (tok, validity, None)).

(** The retriever fails once for each error of [errs], in that order,
    whatever the errors are, and is left in state [r_end]. *)
Fixpoint fails_with (errs : list error) (r r_end : R) : Prop :=
  match errs with
  | [] => r_end = r
  | e :: errs' =>
      exists r1 tok expiresIn,
        RetrieveToken r = (r1, (tok, expiresIn, Some e)) /\
        fails_with errs' r1 r_end
  end.

(** However often it is called, the retriever fails, and with an error
    of its own: never with the [ErrShutdown] value. *)
Definition always_fails (r : R) : Prop :=
  forall k, exists r_end, keeps_failing k r r_end.

(** No select of the goroutine takes the done case. *)
Definition never_shutdown : Prop := forall i, shutdownAt env i = false.

(** The ticker delivers at least [k] more ticks. *)
Definition ticks_at_least (k : nat) (tk : Ticker) : Prop :=
  match tk with
  | None => True
  | Some n => (k <= n)%nat
  end.

(** The ticker has a tick to deliver. *)
Definition ticking (tk : Ticker) : Prop := tk <> Some O.

Definition ticks_after (k : nat) (tk : Ticker) : Ticker :=
  match tk with
  | None => None
  | Some n => Some (n - k)%nat
  end.

(** The events of [refreshInner]: none of them touches the cache. *)
Definition quiet_event (e : event) : bool :=
  match e with
  | EvRetrieve _ _ _ | EvTick | EvTickerClosed | EvDone | EvError _ => true
  | EvLock | EvUnlock | EvSetToken _ | EvCrit _ => false
  end.

(** A stretch of history during which readers find the token [t] under
    the mutex state [l]. *)
Definition readers_find (t : string) (l : RWMutex)
    (h : list (event * tokenRefresher)) : Prop :=
  Forall (fun em => quiet_event (fst em) = true /\
                    token (snd em) = t /\ mu (snd em) = l) h.

(** A stretch of history during which the exclusive lock is held. *)
Definition locked_throughout (h : list (event * tokenRefresher)) : Prop :=
  Forall (fun em => writer (mu (snd em)) = true) h.

(** [w1] is [w] after [k] calls of the retriever and [n] selects that
    left the cache alone and added [h] to the history. *)
Definition advanced (w w1 : World) (k n : nat) (r1 : R)
    (h : list (event * tokenRefresher)) : Prop :=
  self w1 = self w /\ retr w1 = r1 /\
  calls w1 = (calls w + k)%nat /\ selects w1 = (selects w + n)%nat /\
  defers w1 = defers w /\ history w1 = history w ++ h.

(** What the loop of [refreshInner] leaves in its named result [err]
    after [k] failures of the retriever. *)
Definition last_error (k : nat) (err err1 : option error) : Prop :=
  match k with
  | O => err1 = err
  | S _ => exists e, err1 = Some e /\ is_ErrShutdown e = false
  end.

(** Nothing a reader or a caller of [Refresh] depends on differs
    between [m] and [m']. *)
Definition same_cache (m m' : tokenRefresher) : Prop :=
  token m' = token m /\ mu m' = mu m /\
  refreshBuffer m' = refreshBuffer m /\ force m' = force m.

(** A ticker that has already stopped comes with an error on record:
    true of every fresh ticker, which ticks at least once. *)
Definition armed (tk : Ticker) (err : option error) : Prop :=
  tk = Some O -> err <> None.

(** How the loop of [refreshInner] ends, given what it added to the
    history. *)
Definition loop_exit (tk : Ticker) (res : retrieved)
    (h : list (event * tokenRefresher)) : Prop :=
  match res with
  | (t, v, None) => exists h0 m, h = h0 ++ [(EvRetrieve t v None, m)]
  | (t, v, Some e) =>
      t = "" /\ v = 0%Z /\
      exists h0 m,
        (e = ErrShutdown /\ h = h0 ++ [(EvDone, m)]) \/
        (tk <> None /\ h = h0 ++ [(EvTickerClosed, m)])
  end.

Definition loop_post (tk : Ticker) (w : World) (o : outcome retrieved) : Prop :=
  match o with
  | Returned res w' =>
      same_cache (self w) (self w') /\ defers w' = defers w /\
      exists h, history w' = history w ++ h /\
                readers_find (token (self w)) (mu (self w)) h /\
                loop_exit tk res h
  | OutOfFuel => True
  | Blocked | Fatal _ => False
  end.

(** A stretch of a call during which the exclusive lock stays as the
    call found it, held: what the call added to the history was all
    recorded with the writer in. *)
Definition held_post {A : Type} (w : World) (o : outcome A) : Prop :=
  match o with
  | Returned _ w' =>
      mu (self w') = mu (self w) /\ defers w' = defers w /\
      exists h, history w' = history w ++ h /\ locked_throughout h
  | OutOfFuel => True
  | Blocked | Fatal _ => False
  end.

(** The updates of the refresher that the refresh engine performs:
    [P] survives all of them. *)
Definition engine_stable (P : tokenRefresher -> Prop) : Prop :=
  (forall m l, P m -> P (with_mu l m)) /\
  (forall m t, P m -> P (with_token t m)) /\
  (forall m, P m -> P (fst (Close m))).

(** [P] holds of the refresher a computation leaves, if it returns. *)
Definition keeps {A : Type} (P : tokenRefresher -> Prop) (o : outcome A) : Prop :=
  match o with
  | Returned _ w' => P (self w')
  | _ => True
  end.

(** [Close] is what closes [done]: once [closeOnce] has run, the
    channel is closed. *)
Definition closed_once (m : tokenRefresher) : Prop :=
  closeOnce m = true -> closed (done m) = true.

Definition is_select_exit (e : event) : bool :=
  match e with
  | EvDone | EvTickerClosed => true
  | _ => false
  end.

Definition is_unlock (e : event) : bool :=
  match e with
  | EvUnlock => true
  | _ => false
  end.

Definition force_chan_kept (m m' : tokenRefresher) : Prop :=
  force m' = force m.

(** How [refresh] ends, given the cache it leaves and what it added to
    the history: on success the token of the last answer of the
    retriever is cached and the delay is its validity less the refresh
    buffer; otherwise the error is [ErrShutdown], and after the select
    that gave up nothing happened but the release of the lock. *)
Definition refresh_exit (rb : Duration) (res : Duration * option error)
    (final : tokenRefresher) (h : list (event * tokenRefresher)) : Prop :=
  match res with
  | (d, None) =>
      exists t v h0 m tail,
        h = h0 ++ (EvRetrieve t v None, m) :: tail /\
        d = duration_sub v rb /\ token final = t
  | (d, Some e) =>
      e = ErrShutdown /\ d = 0%Z /\
      exists h0 ev m tail,
        h = h0 ++ (ev, m) :: tail /\
        is_select_exit ev = true /\ token m = token final /\
        Forall (fun em => is_unlock (fst em) = true) tail
  end.

(** [refresh] below its deferred unlock: either the lock is as it was
    found, or this unforced call has taken it and deferred its release. *)
Definition phase_post (force : bool) (rb : Duration) (w : World)
    (o : outcome (Duration * option error)) : Prop :=
  match o with
  | Returned res w' =>
      refreshBuffer (self w') = refreshBuffer (self w) /\
      force_chan_kept (self w) (self w') /\
      ((defers w' = defers w /\ mu (self w') = mu (self w)) \/
       (force = false /\ defers w' = DeferUnlock :: defers w /\
        mu (self w') = mkRWMutex true 0)) /\
      exists h, history w' = history w ++ h /\
                refresh_exit rb res (self w') h
  | OutOfFuel => True
  | Blocked | Fatal _ => False
  end.

Definition refresh_post (w : World)
    (o : outcome (Duration * option error)) : Prop :=
  match o with
  | Returned res w' =>
      mu (self w') = mutex_free /\
      refreshBuffer (self w') = refreshBuffer (self w) /\
      force_chan_kept (self w) (self w') /\
      defers w' = defers w /\
      exists h, history w' = history w ++ h /\
                refresh_exit (refreshBuffer (self w)) res (self w') h
  | OutOfFuel => True
  | Blocked | Fatal _ => False
  end.


End Engine.

Arguments Returned {R A} a w.
Arguments OutOfFuel {R A}.
Arguments Blocked {R A}.
Arguments Fatal {R A} msg.

(** ** The retriever of the test suite *)

Record mockRetriever : Type := mkMock {
  called : Z;
  numFails : Z;
  permanentFail : bool;
  incrementToken : bool;
  mock_token : string;
  mock_expiresIn : Duration
}.

Definition mockRetrieverErr : error := errors_New "There was an error".

(** [fmt.Sprintf("%02d", n)] *)
Definition sprintf_02d (n : Z) : string :=
  let s := NilZero.string_of_int (Z.to_int n) in
  if (String.length s <? 2)%nat then ("0" ++ s)%string else s.

#[export] Instance mockRetriever_RetrieveToken : TokenRetriever mockRetriever :=
  fun r =>
    let c := wrap64 (called r + 1) in
    if (0 <? numFails r)%Z || permanentFail r
    then (mkMock c (wrap64 (numFails r - 1)) (permanentFail r)
                 (incrementToken r) (mock_token r) (mock_expiresIn r),
          ("", 0%Z, Some mockRetrieverErr))
    else
      let r' := mkMock c (numFails r) (permanentFail r)
                       (incrementToken r) (mock_token r) (mock_expiresIn r) in
      (r', (if incrementToken r then (mock_token r ++ sprintf_02d c)%string else mock_token r,
            mock_expiresIn r, None)).

(** ** A retriever that replays a script

    The interface leaves the errors of a retriever open; this
    implementation answers each call with the next entry of its script,
    and fails once the script is over. *)

Definition scriptedRetriever : Type := list retrieved.

#[export] Instance scriptedRetriever_RetrieveToken : TokenRetriever scriptedRetriever :=
  fun script =>
    match script with
    | [] => ([], ("", 0%Z, Some (errors_New "no answer left")))
    | answer :: rest => (rest, answer)
    end.

Arguments start_world {R} m r.

(** ** The timer of the scheduler goroutine

    [time.Timer] as [refresher] uses it, and as the time package
    documents it for a timer made by [NewTimer]: the channel [C] holds
    at most one value; the runtime sends on it when an active timer
    expires; [Stop] makes the timer inactive and reports whether it was
    active; [Reset] makes it active again and leaves the channel as it
    is. *)

Record Timer : Type := mkTimer {
  active : bool;     (* armed and not yet expired *)
  pending : bool     (* a value sits in C *)
}.

Definition time_NewTimer : Timer := mkTimer true false.

(** The runtime: an active timer expires and sends on [C]. *)
Definition timer_expire (t : Timer) : Timer :=
  if active t then mkTimer false true else t.

Definition timer_Stop (t : Timer) : Timer * bool :=
  (mkTimer false (pending t), active t).

Definition timer_Reset (t : Timer) : Timer := mkTimer true (pending t).

(** [<-timer.C]; [None] when there is nothing to receive, and the
    receive blocks. *)
Definition timer_receive (t : Timer) : option Timer :=
  if pending t then Some (mkTimer (active t) false) else None.

(** Where the loop of [refresher] stands. *)
Inductive loop_pc : Type :=
| LoopSelect      (* at the select *)
| LoopTimed       (* in case <-timer.C, running refresh(false) *)
| LoopForced      (* in case <-m.force, running refresh(true) *)
| LoopReturned    (* the goroutine has returned *)
| LoopStuck.      (* blocked for ever on the receive that drains timer.C *)

Inductive loop_event : Type :=
| Expires                           (* the runtime: the timer expires *)
| SelectTimer                       (* the select takes case <-timer.C *)
| SelectForce                       (* the select takes case <-m.force *)
| SelectDone                        (* the select takes case <-m.done *)
| RefreshReturns (shutdown : bool). (* refresh returns; is err ErrShutdown? *)

(** The loop of [refresher], as far as the timer goes; on return the
    deferred [timer.Stop()] runs. *)
Definition loop_step (e : loop_event) (s : loop_pc * Timer) : loop_pc * Timer :=
  let (p, t) := s in
  match e, p with
  | Expires, (LoopSelect | LoopTimed | LoopForced) => (p, timer_expire t)
  | SelectTimer, LoopSelect =>
      match timer_receive t with
      | Some t' => (LoopTimed, t')
      | None => s
      end
  | SelectForce, LoopSelect => (LoopForced, t)
  | SelectDone, LoopSelect => (LoopReturned, fst (timer_Stop t))
  | RefreshReturns true, (LoopTimed | LoopForced) => (LoopReturned, fst (timer_Stop t))
  | RefreshReturns false, LoopTimed => (LoopSelect, timer_Reset t)
  | RefreshReturns false, LoopForced =>
      let (t1, was_active) := timer_Stop t in
      if was_active then (LoopSelect, timer_Reset t1)
      else match timer_receive t1 with
           | Some t2 => (LoopSelect, timer_Reset t2)
           | None => (LoopStuck, t1)
           end
  | _, _ => s
  end.

Definition loop_run (evs : list loop_event) (s : loop_pc * Timer) : loop_pc * Timer :=
  fold_left (fun s e => loop_step e s) evs s.

(** What holds of the timer at each point of the loop: at the select
    and during a forced refresh it is either active with an empty
    channel or expired with its value in the channel; during a timed
    refresh it is expired and the channel is empty. *)
Definition loop_inv (s : loop_pc * Timer) : Prop :=
  match fst s with
  | LoopSelect | LoopForced => active (snd s) = negb (pending (snd s))
  | LoopTimed => active (snd s) = false /\ pending (snd s) = false
  | LoopReturned => True
  | LoopStuck => False
  end.

(** ** The scenarios of the test suite *)

(** [mockRetriever{numFails: k, token: tok, expiresIn: validity}] *)
Definition mock_failing (k : Z) (tok : string) (validity : Duration) : mockRetriever :=
  mkMock 0 k false false tok validity.

(** [mockRetriever{permanentFail: true, token: tok, expiresIn: validity}] *)
Definition mock_permanent (tok : string) (validity : Duration) : mockRetriever :=
  mkMock 0 0 true false tok validity.

(** [tokenRefresher{done: make(chan struct{}), force: make(chan struct{}),
    refreshBuffer: rb, token: tok}] *)
Definition refresher_under_test (rb : Duration) (tok : string) : tokenRefresher :=
  mkTokenRefresher rb false (make_chan 0) (make_chan 0) mutex_free tok.

(** No shutdown; the exponential ticker behaves as [ticks] says. *)
Definition running_env (ticks : option nat) : Env :=
  mkEnv (fun _ => ticks) (fun _ => false).

(** As [running_env], but the [j]-th select takes the done case. *)
Definition closing_env (ticks : option nat) (j : nat) : Env :=
  mkEnv (fun _ => ticks) (fun i => i =? j).

(** [refresh] is called on a refresher built as the tests build it. *)
Definition scenario (rb : Duration) (cached : string) (mock : mockRetriever)
  : @World mockRetriever :=
  start_world (refresher_under_test rb cached) mock.

Definition validity_3600s : Duration := (3600 * time_Second)%Z.
Definition buffer_5m : Duration := (5 * time_Minute)%Z.

(** * Properties *)

Section EngineProperties.

Context {R : Type} {retriever : TokenRetriever R}.
Variable env : Env.

(** ** Durations *)

Lemma wrap64_exact (x : Z) : int64_range x -> wrap64 x = x.
Proof.
  unfold int64_range, wrap64. intros Hx.
  rewrite Z.mod_small; lia.
Qed.

Lemma duration_sub_exact (a b : Duration) :
  int64_range (a - b) -> duration_sub a b = (a - b)%Z.
Proof. apply wrap64_exact. Qed.

(** ** One turn of the loop of [refreshInner] *)

Lemma loop_done fuel tk err (w : World) :
  shutdownAt env (selects w) = true ->
  refreshInner_loop env (S fuel) tk err w =
  Returned ("", 0%Z, Some ErrShutdown)
           (selected_world EvDone (fst (Close (self w))) w).
Proof.
  intros Hs. cbn [refreshInner_loop]. unfold bind, select_ticker_done.
  rewrite Hs. reflexivity.
Qed.

Lemma loop_closed fuel err (w : World) :
  shutdownAt env (selects w) = false ->
  refreshInner_loop env (S fuel) (Some O) err w =
  Returned ("", 0%Z, err) (selected_world EvTickerClosed (self w) w).
Proof.
  intros Hs. cbn [refreshInner_loop]. unfold bind, select_ticker_done.
  rewrite Hs. reflexivity.
Qed.

Lemma loop_tick_ok fuel tk err (w : World) r' t v :
  shutdownAt env (selects w) = false ->
  ticking tk ->
  RetrieveToken (retr w) = (r', (t, v, None)) ->
  refreshInner_loop env (S fuel) tk err w =
  Returned (t, v, None)
           (retrieved_world r' (t, v, None) (selected_world EvTick (self w) w)).
Proof.
  intros Hs Htk Hr. cbn [refreshInner_loop]. unfold bind, select_ticker_done.
  rewrite Hs.
  destruct tk as [[|n]|]; [now elim Htk | |];
    unfold retriever_RetrieveToken; cbn [retr selected_world emit];
    rewrite Hr; reflexivity.
Qed.

Lemma loop_tick_fail fuel tk err (w : World) r' t v e :
  shutdownAt env (selects w) = false ->
  ticking tk ->
  RetrieveToken (retr w) = (r', (t, v, Some e)) ->
  refreshInner_loop env (S fuel) tk err w =
  refreshInner_loop env fuel (ticks_after 1 tk) (Some e)
    (emit (EvError "Failed to refresh token. Retrying...")
       (retrieved_world r' (t, v, Some e) (selected_world EvTick (self w) w))).
Proof.
  intros Hs Htk Hr. cbn [refreshInner_loop]. unfold bind, select_ticker_done.
  rewrite Hs.
  destruct tk as [[|n]|]; [now elim Htk | |];
    unfold retriever_RetrieveToken; cbn [retr selected_world emit];
    rewrite Hr; unfold logger_Error; cbn [ticks_after Nat.sub];
    rewrite ?Nat.sub_0_r; reflexivity.
Qed.

(** ** Runs of the loop against a retriever that keeps failing *)

Lemma ticks_after_ticking k tk : ticks_at_least (S k) tk -> ticking (ticks_after k tk).
Proof.
  destruct tk as [n|]; cbn; unfold ticking; [|discriminate].
  intros Hn [= H]. lia.
Qed.

Lemma loop_keeps_failing k : forall fuel tk err (w : World) r1,
  keeps_failing k (retr w) r1 ->
  (forall i, i < k -> shutdownAt env (selects w + i) = false) ->
  ticks_at_least k tk ->
  exists w1 h err1,
    refreshInner_loop env (k + fuel) tk err w =
    refreshInner_loop env fuel (ticks_after k tk) err1 w1 /\
    advanced w w1 k k r1 h /\
    readers_find (token (self w)) (mu (self w)) h /\
    last_error k err err1.
Proof.
  induction k as [|k IH]; intros fuel tk err w r1 Hk Hs Htk.
  - cbn in Hk. subst r1. exists w, [], err. unfold advanced.
    rewrite !Nat.add_0_r, app_nil_r. repeat split; try constructor.
    destruct tk; cbn; rewrite ?Nat.sub_0_r; reflexivity.
  - destruct Hk as (ra & t & v & e & Hr & He & Hk).
    assert (H0 : shutdownAt env (selects w) = false).
    { rewrite <- (Nat.add_0_r (selects w)). apply Hs. lia. }
    assert (Hticking : ticking tk).
    { destruct tk as [n|]; unfold ticking; [|discriminate].
      cbn in Htk. intros [= ->]. lia. }
    cbn [Nat.add]. rewrite (loop_tick_fail _ _ _ _ _ _ _ _ H0 Hticking Hr).
    set (wa := emit _ _).
    destruct (IH fuel (ticks_after 1 tk) (Some e) wa r1)
      as (w1 & h & err1 & Heq & Hadv & Hq & Herr).
    + exact Hk.
    + intros i Hi. cbn. replace (S (selects w + i)) with (selects w + S i) by lia.
      apply Hs. lia.
    + destruct tk as [n|]; cbn in *; lia.
    + exists w1,
        ([(EvTick, self w); (EvRetrieve t v (Some e), self w);
          (EvError "Failed to refresh token. Retrying...", self w)] ++ h),
        err1.
      destruct Hadv as (Hself & Hretr & Hcalls & Hsel & Hdef & Hhist).
      cbn in Hself, Hcalls, Hsel, Hdef, Hhist, Hq. unfold advanced. repeat split.
      * rewrite Heq. f_equal. destruct tk as [n|]; cbn; [|reflexivity].
        f_equal. lia.
      * exact Hself.
      * exact Hretr.
      * rewrite Hcalls. lia.
      * rewrite Hsel. lia.
      * exact Hdef.
      * rewrite Hhist. rewrite <- !app_assoc. reflexivity.
      * unfold readers_find. cbn [app].
        repeat (constructor; [cbn; auto|]). exact Hq.
      * destruct k; cbn in Herr |- *; [exists e; subst; auto | exact Herr].
Qed.

(** [k] failures, then a success, while the ticker still ticks. *)
Lemma loop_retries_until_success k fuel tk err (w : World) t v r_end :
  fails_then_succeeds k (retr w) t v r_end ->
  (forall i, i <= k -> shutdownAt env (selects w + i) = false) ->
  ticks_at_least (S k) tk ->
  k < fuel ->
  exists w' h,
    refreshInner_loop env fuel tk err w = Returned (t, v, None) w' /\
    advanced w w' (S k) (S k) r_end (h ++ [(EvRetrieve t v None, self w)]) /\
    readers_find (token (self w)) (mu (self w)) h.
Proof.
  intros (r1 & Hk & Hok) Hs Htk Hfuel.
  replace fuel with (k + S (fuel - S k)) by lia.
  destruct (loop_keeps_failing k (S (fuel - S k)) tk err w r1)
    as (w1 & h & err1 & Heq & Hadv & Hq & _).
  - exact Hk.
  - intros i Hi. apply Hs. lia.
  - destruct tk; cbn in *; lia.
  - destruct Hadv as (Hself & Hretr & Hcalls & Hsel & Hdef & Hhist).
    rewrite Heq. rewrite <- Hretr in Hok.
    assert (Hs1 : shutdownAt env (selects w1) = false)
      by (rewrite Hsel; apply Hs; lia).
    rewrite (loop_tick_ok _ _ _ _ _ _ _ Hs1 (ticks_after_ticking _ _ Htk) Hok).
    eexists. exists (h ++ [(EvTick, self w)]). split; [reflexivity|].
    unfold advanced. cbn. rewrite Hself, Hcalls, Hsel, Hdef, Hhist.
    rewrite <- !app_assoc. cbn. repeat split; try lia.
    unfold readers_find. apply Forall_app. split; [exact Hq|].
    constructor; [cbn; auto | constructor].
Qed.

(** The ticker stops after [n] ticks that all met a failure. *)
Lemma loop_exhausts n fuel err (w : World) r1 :
  keeps_failing n (retr w) r1 ->
  (forall i, i <= n -> shutdownAt env (selects w + i) = false) ->
  n < fuel ->
  exists w1 h err1,
    refreshInner_loop env fuel (Some n) err w = Returned ("", 0%Z, err1) w1 /\
    advanced w w1 n (S n) r1 (h ++ [(EvTickerClosed, self w)]) /\
    readers_find (token (self w)) (mu (self w)) h /\
    last_error n err err1.
Proof.
  intros Hk Hs Hfuel.
  replace fuel with (n + S (fuel - S n)) by lia.
  destruct (loop_keeps_failing n (S (fuel - S n)) (Some n) err w r1)
    as (w1 & h & err1 & Heq & Hadv & Hq & Herr).
  - exact Hk.
  - intros i Hi. apply Hs. lia.
  - cbn. lia.
  - destruct Hadv as (Hself & Hretr & Hcalls & Hsel & Hdef & Hhist).
    rewrite Heq. cbn [ticks_after]. rewrite Nat.sub_diag.
    rewrite loop_closed by (rewrite Hsel; apply Hs; lia).
    eexists. exists h, err1. split; [reflexivity|].
    unfold advanced. cbn. rewrite Hself, Hcalls, Hsel, Hdef, Hhist.
    rewrite <- !app_assoc. repeat split; try lia; assumption.
Qed.

(** ** Runs of the loop against failures of any kind *)

Lemma last_error_of (e : error) errs (err : option error) :
  last (map Some (e :: errs)) err = last (map Some errs) (Some e).
Proof.
  revert e err. induction errs as [|e' errs IH]; intros e err; [reflexivity|].
  change (last (map Some (e :: e' :: errs)) err)
    with (last (map Some (e' :: errs)) err).
  rewrite IH. symmetry. apply IH.
Qed.

(** The loop keeps the last error of the retriever in its named
    result, whatever the errors are. *)
Lemma loop_fails_with errs : forall fuel tk err (w : @World R) r1,
  fails_with errs (retr w) r1 ->
  (forall i, i < length errs -> shutdownAt env (selects w + i) = false) ->
  ticks_at_least (length errs) tk ->
  exists w1 h,
    refreshInner_loop env (length errs + fuel) tk err w =
    refreshInner_loop env fuel (ticks_after (length errs) tk)
                      (last (map Some errs) err) w1 /\
    advanced w w1 (length errs) (length errs) r1 h /\
    readers_find (token (self w)) (mu (self w)) h.
Proof.
  induction errs as [|e errs IH]; intros fuel tk err w r1 Hk Hs Htk.
  - cbn in Hk. subst r1. exists w, []. unfold advanced.
    cbn [length]. rewrite !Nat.add_0_r, app_nil_r. repeat split; try constructor.
    destruct tk; cbn; rewrite ?Nat.sub_0_r; reflexivity.
  - destruct Hk as (ra & t & v & Hr & Hk).
    assert (H0 : shutdownAt env (selects w) = false).
    { rewrite <- (Nat.add_0_r (selects w)). apply Hs. cbn. lia. }
    assert (Hticking : ticking tk).
    { destruct tk as [n|]; unfold ticking; [|discriminate].
      cbn in Htk. intros [= ->]. lia. }
    cbn [length Nat.add]. rewrite (loop_tick_fail _ _ _ _ _ _ _ _ H0 Hticking Hr).
    set (wa := emit _ _).
    destruct (IH fuel (ticks_after 1 tk) (Some e) wa r1) as (w1 & h & Heq & Hadv & Hq).
    + exact Hk.
    + intros i Hi. cbn. replace (S (selects w + i)) with (selects w + S i) by lia.
      apply Hs. cbn. lia.
    + destruct tk as [n|]; cbn in *; lia.
    + exists w1,
        ([(EvTick, self w); (EvRetrieve t v (Some e), self w);
          (EvError "Failed to refresh token. Retrying...", self w)] ++ h).
      destruct Hadv as (Hself & Hretr & Hcalls & Hsel & Hdef & Hhist).
      cbn in Hself, Hcalls, Hsel, Hdef, Hhist, Hq. unfold advanced. repeat split.
      * rewrite Heq, last_error_of. f_equal.
        destruct tk as [n|]; cbn; [|reflexivity]. f_equal. lia.
      * exact Hself.
      * exact Hretr.
      * rewrite Hcalls. lia.
      * rewrite Hsel. lia.
      * exact Hdef.
      * rewrite Hhist. rewrite <- !app_assoc. reflexivity.
      * unfold readers_find. cbn [app].
        repeat (constructor; [cbn; auto|]). exact Hq.
Qed.

(** The exponential ticker stops after the guaranteed tick and [n]
    more, and every tick met a failure. *)
Lemma refreshInner_exhausts_with n fuel maxElapsed errs e_last (w : @World R) r1 :
  exponentialTicks env maxElapsed = Some n ->
  fails_with (errs ++ [e_last]) (retr w) r1 ->
  length errs = n ->
  (forall i, i <= S n -> shutdownAt env (selects w + i) = false) ->
  S n < fuel ->
  exists w' h,
    refreshInner env fuel (ExponentialBackOff maxElapsed) w =
      Returned ("", 0%Z, Some e_last) w' /\
    advanced w w' (S n) (S (S n)) r1 (h ++ [(EvTickerClosed, self w)]) /\
    readers_find (token (self w)) (mu (self w)) h.
Proof.
  intros Hn Hk Hlen Hs Hfuel.
  unfold refreshInner, NewTicker. rewrite Hn.
  assert (Hl : length (errs ++ [e_last]) = S n)
    by (rewrite length_app; cbn; lia).
  replace fuel with (length (errs ++ [e_last]) + S (fuel - S (S n))) by lia.
  destruct (loop_fails_with (errs ++ [e_last]) (S (fuel - S (S n))) (Some (S n))
              None w r1) as (w1 & h & Heq & Hadv & Hq).
  - exact Hk.
  - intros i Hi. apply Hs. lia.
  - cbn. lia.
  - destruct Hadv as (Hself & Hretr & Hcalls & Hsel & Hdef & Hhist).
    rewrite Heq, Hl. cbn [ticks_after]. rewrite Nat.sub_diag.
    rewrite loop_closed by (rewrite Hsel, Hl; apply Hs; lia).
    rewrite map_app. cbn [map]. rewrite last_last.
    eexists. exists h. split; [reflexivity|].
    unfold advanced. cbn. rewrite Hself, Hcalls, Hsel, Hdef, Hhist, Hl.
    rewrite <- !app_assoc. repeat split; try lia; assumption.
Qed.

Lemma keeps_failing_split a : forall b (r r_end : R),
  keeps_failing (a + b) r r_end ->
  exists r1, keeps_failing a r r1 /\ keeps_failing b r1 r_end.
Proof.
  induction a as [|a IH]; intros b r r_end H.
  - exists r. split; [reflexivity | exact H].
  - destruct H as (ra & t & v & e & Hr & He & H).
    destruct (IH _ _ _ H) as (r1 & Ha & Hb).
    exists r1. split; [|exact Hb].
    exists ra, t, v, e. auto.
Qed.

Ltac use_loop_success k t v r_end :=
  match goal with
  | |- context [refreshInner_loop env ?fuel ?tk ?e ?w] =>
      let w1 := fresh "w1" in
      let h := fresh "h" in
      let Heq := fresh "Heq" in
      let Hadv := fresh "Hadv" in
      let Hq := fresh "Hq" in
      destruct (loop_retries_until_success k fuel tk e w t v r_end)
        as (w1 & h & Heq & Hadv & Hq);
      [ | | | | rewrite Heq; clear Heq ]
  end.

Lemma expired_retries_until_success k fuel force_ (w : World) tok rb t v r_end :
  fails_then_succeeds k (retr w) t v r_end ->
  never_shutdown env ->
  (force_ = false -> mu (self w) = mutex_free) ->
  k < fuel ->
  exists w',
    refresh_expired env fuel force_ tok rb w =
      Returned (duration_sub v rb, None) w' /\
    token (self w') = t /\
    refreshBuffer (self w') = refreshBuffer (self w) /\
    retr w' = r_end /\ calls w' = calls w + S k /\
    ((force_ = true /\ defers w' = defers w /\ mu (self w') = mu (self w)) \/
     (force_ = false /\ defers w' = DeferUnlock :: defers w /\
      mu (self w') = mkRWMutex true 0)).
Proof.
  intros Hfs Hns Hmu Hfuel.
  unfold refresh_expired, refreshInner, bind.
  destruct force_; cbn [negb NewTicker].
  - unfold ret at 1. use_loop_success k t v r_end; auto.
    { cbn. exact I. }
    destruct Hadv as (Hself & Hretr & Hcalls & Hsel & Hdef & Hhist).
    cbn. eexists. split; [reflexivity|]. cbn. rewrite Hself.
    repeat split; auto.
  - unfold Lock. rewrite (Hmu eq_refl). cbn.
    use_loop_success k t v r_end; auto.
    { cbn. exact I. }
    destruct Hadv as (Hself & Hretr & Hcalls & Hsel & Hdef & Hhist).
    cbn in *. eexists. split; [reflexivity|]. cbn. rewrite Hself.
    repeat split; auto.
Qed.

Lemma fails_then_succeeds_split a b (r : R) t v r_end :
  fails_then_succeeds (a + b) r t v r_end ->
  exists r1, keeps_failing a r r1 /\ fails_then_succeeds b r1 t v r_end.
Proof.
  intros (r2 & Hk & Hok).
  destruct (keeps_failing_split _ _ _ _ Hk) as (r1 & Ha & Hb).
  exists r1. split; [exact Ha|]. exists r2. auto.
Qed.

Lemma backoff_retries_until_success k fuel force_ (w : World) t v r_end :
  fails_then_succeeds k (retr w) t v r_end ->
  never_shutdown env ->
  (force_ = false -> mu (self w) = mutex_free) ->
  k < fuel ->
  exists w',
    refresh_backoff env fuel force_ w =
      Returned (duration_sub v (refreshBuffer (self w)), None) w' /\
    token (self w') = t /\
    refreshBuffer (self w') = refreshBuffer (self w) /\
    retr w' = r_end /\ calls w' = calls w + S k /\
    ((defers w' = defers w /\ mu (self w') = mu (self w)) \/
     (force_ = false /\ defers w' = DeferUnlock :: defers w /\
      mu (self w') = mkRWMutex true 0)).
Proof.
  intros Hfs Hns Hmu Hfuel.
  unfold refresh_backoff, refreshInner, bind.
  destruct (exponentialTicks env (duration_sub (refreshBuffer (self w)) time_Second))
    as [n|] eqn:Hticks; cbn [NewTicker]; rewrite Hticks.
  - destruct (le_lt_dec k n) as [Hkn|Hkn].
    + use_loop_success k t v r_end; auto.
      { cbn. lia. }
      destruct Hadv as (Hself & Hretr & Hcalls & Hsel & Hdef & Hhist).
      cbn. eexists. split; [reflexivity|]. cbn. rewrite Hself.
      repeat split; auto.
    + replace k with (S n + (k - S n)) in Hfs by lia.
      destruct (fails_then_succeeds_split _ _ _ _ _ _ Hfs) as (r1 & Ha & Hb).
      destruct (loop_exhausts (S n) fuel None w r1 Ha)
        as (w1 & h & err1 & Heq & Hadv & Hq & e & -> & He); auto; [lia|].
      destruct Hadv as (Hself & Hretr & Hcalls & Hsel & Hdef & Hhist).
      rewrite Heq. rewrite He.
      destruct (expired_retries_until_success (k - S n) fuel force_ w1 ""
                  (refreshBuffer (self w)) t v r_end)
        as (w' & Hex & Htok & Hrb & Hr & Hc & Hd); auto.
      { rewrite Hretr. exact Hb. }
      { rewrite Hself. exact Hmu. }
      { lia. }
      exists w'. split; [exact Hex|].
      rewrite Hrb, Hself, Hc, Hcalls. repeat split; auto; try lia.
      rewrite <- Hself, <- Hdef. intuition.
  - use_loop_success k t v r_end; auto.
    { cbn. exact I. }
    destruct Hadv as (Hself & Hretr & Hcalls & Hsel & Hdef & Hhist).
    cbn. eexists. split; [reflexivity|]. cbn. rewrite Hself.
    repeat split; auto.
Qed.

(** [refresh] against a retriever that fails [k] times and then
    succeeds, when the service is not shut down meanwhile. *)
Lemma refresh_retries_until_success k fuel force_ (w : World) t v r_end :
  fails_then_succeeds k (retr w) t v r_end ->
  never_shutdown env ->
  mu (self w) = mutex_free ->
  k < fuel ->
  exists w',
    refresh env fuel force_ w =
      Returned (duration_sub v (refreshBuffer (self w)), None) w' /\
    token (self w') = t /\
    mu (self w') = mutex_free /\
    refreshBuffer (self w') = refreshBuffer (self w) /\
    retr w' = r_end /\ calls w' = calls w + S k /\
    defers w' = defers w.
Proof.
  intros Hfs Hns Hmu Hfuel.
  unfold refresh, call. destruct force_.
  - unfold bind at 1. unfold Lock. cbn [with_defers self]. rewrite Hmu. cbn.
    unfold bind at 1. unfold retriever_RetrieveToken. cbn.
    destruct k as [|k].
    + destruct Hfs as (r1 & -> & Hok). rewrite Hok. cbn.
      eexists. split; [reflexivity|]. cbn. repeat split; lia.
    + destruct Hfs as (r2 & (ra & t0 & v0 & e & Hr & He & Hk) & Hok).
      rewrite Hr. cbn.
      match goal with
      | |- context [refresh_backoff env fuel true ?w0] =>
          destruct (backoff_retries_until_success k fuel true w0 t v r_end)
            as (w' & Hex & Htok & Hrb & Hretr & Hc & Hd)
      end.
      * exists r2. auto.
      * exact Hns.
      * discriminate.
      * lia.
      * cbn in Hex, Hrb, Hc, Hd. rewrite Hex.
        destruct Hd as [(Hd & Hm) | (? & _)]; [|discriminate].
        cbn in Hm. rewrite Hd. cbn. unfold bind, Unlock. cbn. rewrite Hm. cbn.
        eexists. split; [reflexivity|]. cbn.
        rewrite Htok, Hrb, Hretr, Hc. repeat split; auto; lia.
  - destruct (backoff_retries_until_success k fuel false (with_defers [] w) t v r_end)
      as (w' & Hex & Htok & Hrb & Hretr & Hc & Hd); auto.
    cbn in Hex, Hrb, Hc, Hd. rewrite Hex.
    destruct Hd as [(Hd & Hm) | (_ & Hd & Hm)]; rewrite Hd; cbn.
    + eexists. split; [reflexivity|]. cbn. rewrite Hm. repeat split; auto.
    + unfold bind, Unlock. cbn. rewrite Hm. cbn.
      eexists. split; [reflexivity|]. cbn. repeat split; auto.
Qed.

(** ** What the loop of [refreshInner] can do, whatever the environment *)

Lemma readers_find_close t l (m : tokenRefresher) :
  token m = t -> mu m = l ->
  token (fst (Close m)) = t /\ mu (fst (Close m)) = l.
Proof. unfold Close. destruct (closeOnce m); cbn; auto. Qed.

Lemma same_cache_close (m : tokenRefresher) : same_cache m (fst (Close m)).
Proof. unfold Close, same_cache. destruct (closeOnce m); cbn; auto. Qed.

Lemma same_cache_refl (m : tokenRefresher) : same_cache m m.
Proof. unfold same_cache. auto. Qed.

Lemma loop_exit_extend tk tk' res pre h :
  (tk <> None -> tk' <> None) ->
  loop_exit tk res h -> loop_exit tk' res (pre ++ h).
Proof.
  intros Htk. destruct res as ((t & v) & [e|]); cbn.
  - intros (-> & -> & h0 & m & [(-> & ->) | (Hn & ->)]);
      repeat split; exists (pre ++ h0), m; rewrite app_assoc; auto.
  - intros (h0 & m & ->). exists (pre ++ h0), m. now rewrite app_assoc.
Qed.

Lemma ticker_cases (tk : Ticker) : tk = Some O \/ ticking tk.
Proof.
  destruct tk as [[|n]|]; [left; reflexivity | right | right]; discriminate.
Qed.

Lemma loop_sound fuel : forall tk err (w : World),
  armed tk err -> loop_post tk w (refreshInner_loop env fuel tk err w).
Proof.
  induction fuel as [|fuel IH]; intros tk err w Harmed; [exact I|].
  destruct (shutdownAt env (selects w)) eqn:Hs.
  - rewrite loop_done by exact Hs. cbn.
    split; [apply same_cache_close|]. split; [reflexivity|].
    exists [(EvDone, fst (Close (self w)))]. split; [reflexivity|].
    split.
    + constructor; [|constructor]. cbn.
      destruct (readers_find_close _ _ (self w) eq_refl eq_refl). auto.
    + repeat split. exists [], (fst (Close (self w))). left. auto.
  - destruct (ticker_cases tk) as [-> | Htk].
    + rewrite loop_closed by exact Hs. cbn.
      split; [apply same_cache_refl|]. split; [reflexivity|].
      exists [(EvTickerClosed, self w)]. split; [reflexivity|].
      split; [constructor; [cbn; auto | constructor]|].
      destruct err as [e|]; [|now elim (Harmed eq_refl)].
      repeat split. exists [], (self w). right. split; [discriminate | reflexivity].
    + destruct (RetrieveToken (retr w)) as (r' & (t & v) & [e|]) eqn:Hr.
      * rewrite (loop_tick_fail _ _ _ _ _ _ _ _ Hs Htk Hr).
        specialize (IH (ticks_after 1 tk) (Some e)
                       (emit (EvError "Failed to refresh token. Retrying...")
                         (retrieved_world r' (t, v, Some e)
                            (selected_world EvTick (self w) w)))).
        destruct (refreshInner_loop _ _ _ _ _) as [res w' | | |]; cbn in IH |- *;
          try (apply IH; discriminate).
        destruct IH as (Hc & Hd & h & Hh & Hq & Hx); [discriminate|].
        split; [exact Hc|]. split; [exact Hd|].
        eexists. split; [rewrite Hh, <- !app_assoc; reflexivity|].
        split.
        -- cbn. repeat (constructor; [cbn; auto|]). exact Hq.
        -- apply (loop_exit_extend (ticks_after 1 tk) tk res
                    [(EvTick, self w); (EvRetrieve t v (Some e), self w);
                     (EvError "Failed to refresh token. Retrying...", self w)] h);
             [|exact Hx].
           destruct tk; cbn; congruence.
      * rewrite (loop_tick_ok _ _ _ _ _ _ _ Hs Htk Hr). cbn.
        split; [apply same_cache_refl|]. split; [reflexivity|].
        exists [(EvTick, self w); (EvRetrieve t v None, self w)].
        split; [rewrite <- app_assoc; reflexivity|].
        split; [repeat (constructor; [cbn; auto|]); constructor|].
        exists [(EvTick, self w)], (self w). reflexivity.
Qed.

Lemma armed_NewTicker b : armed (NewTicker env b) None.
Proof.
  unfold armed, NewTicker. destruct b; [|discriminate].
  destruct (exponentialTicks env MaxElapsedTime); discriminate.
Qed.

Lemma refreshInner_sound fuel b (w : World) :
  loop_post (NewTicker env b) w (refreshInner env fuel b w).
Proof. apply loop_sound, armed_NewTicker. Qed.

(** ** What [refresh] can do, whatever the environment *)

Lemma readers_find_last t l h0 ev (m : tokenRefresher) :
  readers_find t l (h0 ++ [(ev, m)]) -> token m = t /\ mu m = l.
Proof.
  unfold readers_find. intros H. apply Forall_app in H. destruct H as (_ & H).
  inversion H as [|x xs (_ & Ht & Hm) _]; subst. auto.
Qed.

Lemma refresh_exit_wrap rb res (final final' : tokenRefresher) pre h post :
  refresh_exit rb res final h ->
  token final' = token final ->
  Forall (fun em => is_unlock (fst em) = true) post ->
  refresh_exit rb res final' (pre ++ h ++ post).
Proof.
  intros Hx Ht Hp. destruct res as (d & [e|]); cbn in Hx |- *.
  - destruct Hx as (-> & -> & h0 & ev & m & tail & -> & Hev & Hm & Htail).
    repeat split. exists (pre ++ h0), ev, m, (tail ++ post).
    split; [now rewrite <- !app_assoc|].
    split; [exact Hev|]. split; [congruence|].
    apply Forall_app. auto.
  - destruct Hx as (t & v & h0 & m & tail & -> & -> & <-).
    exists (token final), v, (pre ++ h0), m, (tail ++ post).
    split; [now rewrite <- !app_assoc|]. auto.
Qed.

Lemma refresh_exit_prefix rb res (final : tokenRefresher) pre h :
  refresh_exit rb res final h ->
  refresh_exit rb res final (pre ++ h).
Proof.
  intros Hx. rewrite <- (app_nil_r h).
  apply refresh_exit_wrap with (final := final); auto.
Qed.

Ltac with_loop_post fuel t v e w1 Hl :=
  match goal with
  | |- context [refreshInner env fuel ?b ?w0] =>
      pose proof (refreshInner_sound fuel b w0) as Hl;
      destruct (refreshInner env fuel b w0) as [((t & v) & [e|]) w1 | | |]
  end.

Lemma expired_sound fuel force_ tok rb (w : World) :
  (force_ = false -> mu (self w) = mutex_free) ->
  phase_post force_ rb w (refresh_expired env fuel force_ tok rb w).
Proof.
  intros Hmu. unfold refresh_expired, bind.
  destruct force_; cbn [negb].
  - unfold ret at 1.
    with_loop_post fuel t v e w1 Hl; cbn in Hl |- *; auto.
    + destruct Hl as ((Ht & Hm & Hrb & Hf) & Hd & h & Hh & Hq & (-> & -> & h0 & m & Hx)).
      destruct Hx as [(-> & ->) | (Hn & _)]; [|now elim Hn].
      cbn. repeat split; auto.
      exists (h0 ++ [(EvDone, m)]). split; [exact Hh|].
      repeat split. exists h0, EvDone, m, []. repeat split; auto.
      apply readers_find_last in Hq. destruct Hq. congruence.
    + destruct Hl as ((Ht & Hm & Hrb & Hf) & Hd & h & Hh & Hq & (h0 & m & ->)).
      cbn. repeat split; auto.
      exists ((h0 ++ [(EvRetrieve t v None, m)]) ++
              [(EvSetToken t, with_token t (self w1))]).
      split; [rewrite Hh, <- !app_assoc; reflexivity|].
      exists t, v, h0, m, [(EvSetToken t, with_token t (self w1))].
      split; [now rewrite <- !app_assoc|]. split; reflexivity.
  - unfold Lock. rewrite (Hmu eq_refl). cbn.
    with_loop_post fuel t v e w1 Hl; cbn in Hl |- *; auto.
    + destruct Hl as ((Ht & Hm & Hrb & Hf) & Hd & h & Hh & Hq & (-> & -> & h0 & m & Hx)).
      destruct Hx as [(-> & ->) | (Hn & _)]; [|now elim Hn].
      cbn. split; [exact Hrb|]. split; [exact Hf|]. split; [right; auto|].
      eexists. split; [rewrite Hh, <- !app_assoc; cbn; reflexivity|].
      repeat split.
      match goal with
      | |- exists _ _ _ _, ?a :: ?b :: ?c :: _ = _ /\ _ =>
          exists ([a; b; c] ++ h0), EvDone, m, []
      end.
      split; [now rewrite <- !app_assoc|]. repeat split; auto.
      apply readers_find_last in Hq. destruct Hq. cbn in *. congruence.
    + destruct Hl as ((Ht & Hm & Hrb & Hf) & Hd & h & Hh & Hq & (h0 & m & ->)).
      cbn. split; [exact Hrb|]. split; [exact Hf|]. split; [right; auto|].
      eexists. split; [rewrite Hh, <- !app_assoc; cbn; reflexivity|].
      match goal with
      | |- exists _ _ _ _ _, ?a :: ?b :: ?c :: _ = _ /\ _ =>
          exists t, v, ([a; b; c] ++ h0), m, [(EvSetToken t, with_token t (self w1))]
      end.
      split; [now rewrite <- !app_assoc|]. split; reflexivity.
Qed.

Lemma backoff_sound fuel force_ (w : World) :
  (force_ = false -> mu (self w) = mutex_free) ->
  phase_post force_ (refreshBuffer (self w)) w (refresh_backoff env fuel force_ w).
Proof.
  intros Hmu. unfold refresh_backoff, bind.
  with_loop_post fuel t v e w1 Hl; cbn in Hl |- *; auto.
  - destruct Hl as ((Ht & Hm & Hrb & Hf) & Hd & h & Hh & Hq & (-> & -> & h0 & m & Hx)).
    destruct e as [|msg]; cbn [is_ErrShutdown].
    + cbn. repeat split; auto.
      exists h. split; [exact Hh|]. repeat split.
      destruct Hx as [(_ & ->) | (_ & ->)];
        apply readers_find_last in Hq; destruct Hq as (Hq & _).
      * exists h0, EvDone, m, []. repeat split; auto. congruence.
      * exists h0, EvTickerClosed, m, []. repeat split; auto. congruence.
    + pose proof (expired_sound fuel force_ "" (refreshBuffer (self w)) w1) as He.
      destruct (refresh_expired env fuel force_ "" (refreshBuffer (self w)) w1)
        as [res w2 | | |]; cbn in He |- *;
        try (apply He; rewrite Hm; exact Hmu).
      destruct He as (Hrb2 & Hf2 & Hlock & h2 & Hh2 & Hx2); [rewrite Hm; exact Hmu|].
      unfold force_chan_kept in *.
      split; [congruence|]. split; [congruence|].
      split; [rewrite <- Hd, <- Hm; exact Hlock|].
      exists (h ++ h2). split; [rewrite Hh2, Hh, <- app_assoc; reflexivity|].
      apply refresh_exit_prefix. exact Hx2.
  - destruct Hl as ((Ht & Hm & Hrb & Hf) & Hd & h & Hh & Hq & (h0 & m & ->)).
    cbn. repeat split; auto.
    exists ((h0 ++ [(EvRetrieve t v None, m)]) ++
            [(EvSetToken t, with_token t (self w1))]).
    split; [rewrite Hh, <- !app_assoc; reflexivity|].
    exists t, v, h0, m, [(EvSetToken t, with_token t (self w1))].
    split; [now rewrite <- !app_assoc|]. split; reflexivity.
Qed.

(** [refresh] returns with the lock released, either a delay and no
    error or [ErrShutdown]; it never stops on anything else. *)
Lemma refresh_sound fuel force_ (w : World) :
  mu (self w) = mutex_free ->
  refresh_post w (refresh env fuel force_ w).
Proof.
  intros Hmu. unfold refresh, call. destruct force_.
  - unfold bind at 1. unfold Lock. cbn [with_defers self]. rewrite Hmu. cbn.
    unfold bind at 1. unfold retriever_RetrieveToken. cbn.
    destruct (RetrieveToken (retr w)) as (r' & (t & v) & [e|]) eqn:Hr; cbn.
    + match goal with
      | |- context [refresh_backoff env fuel true ?w0] =>
          pose proof (backoff_sound fuel true w0) as Hb;
          destruct (refresh_backoff env fuel true w0) as [res w1 | | |]
      end; cbn in Hb |- *; try (apply Hb; discriminate).
      destruct Hb as (Hrb & Hf & Hlock & h & Hh & Hx); [discriminate|].
      destruct Hlock as [(Hd & Hm) | (? & _)]; [|discriminate].
      rewrite Hd. cbn. unfold bind, Unlock. cbn. rewrite Hm. cbn.
      split; [reflexivity|]. split; [exact Hrb|]. split; [exact Hf|].
      split; [reflexivity|].
      eexists. split; [rewrite Hh, <- !app_assoc; cbn; reflexivity|].
      match goal with
      | |- refresh_exit _ _ ?f (?a :: ?b :: ?c :: ?d :: h ++ ?p) =>
          apply (refresh_exit_wrap _ _ (self w1) f [a; b; c; d] h p)
      end; auto.
    + split; [reflexivity|]. split; [reflexivity|]. split; [reflexivity|].
      split; [reflexivity|].
      eexists. split; [rewrite <- !app_assoc; cbn; reflexivity|].
      match goal with
      | |- exists _ _ _ _ _, ?a :: ?b :: ?c :: ?d :: nil = _ /\ _ =>
          exists t, v, [a], (snd b), [c; d]
      end.
      split; [reflexivity|]. split; reflexivity.
  - pose proof (backoff_sound fuel false (with_defers [] w) (fun _ => Hmu)) as Hb.
    destruct (refresh_backoff env fuel false (with_defers [] w)) as [res w1 | | |];
      cbn in Hb |- *; auto.
    destruct Hb as (Hrb & Hf & Hlock & h & Hh & Hx).
    destruct Hlock as [(Hd & Hm) | (_ & Hd & Hm)]; rewrite Hd; cbn.
    + rewrite Hm. repeat split; auto. exists h. split; [exact Hh|]. exact Hx.
    + unfold bind, Unlock. cbn. rewrite Hm. cbn.
      split; [reflexivity|]. split; [exact Hrb|]. split; [exact Hf|].
      split; [reflexivity|].
      exists (h ++ [(EvUnlock, with_mu (mkRWMutex false 0) (self w1))]).
      split; [rewrite Hh, <- !app_assoc; reflexivity|].
      apply (refresh_exit_wrap _ _ (self w1) _ [] h
               [(EvUnlock, with_mu (mkRWMutex false 0) (self w1))]); auto.
Qed.

(** ** Progress: a shutdown that is taken ends the refresh *)

Lemma loop_progress fuel : forall tk err (w : World) j,
  selects w <= j -> shutdownAt env j = true -> j - selects w < fuel ->
  exists res w',
    refreshInner_loop env fuel tk err w = Returned res w' /\
    selects w <= selects w' /\
    (snd res = Some ErrShutdown \/ selects w' <= j).
Proof.
  induction fuel as [|fuel IH]; intros tk err w j Hle Hj Hfuel; [lia|].
  destruct (shutdownAt env (selects w)) eqn:Hs.
  - rewrite loop_done by exact Hs. eexists. eexists. split; [reflexivity|].
    cbn. split; [lia | left; reflexivity].
  - assert (Hlt : selects w < j).
    { destruct (Nat.eq_dec (selects w) j) as [E|E]; [|lia].
      rewrite E in Hs. congruence. }
    destruct (ticker_cases tk) as [-> | Htk].
    + rewrite loop_closed by exact Hs. eexists. eexists. split; [reflexivity|].
      cbn. split; [lia | right; lia].
    + destruct (RetrieveToken (retr w)) as (r' & (t & v) & [e|]) eqn:Hr.
      * rewrite (loop_tick_fail _ _ _ _ _ _ _ _ Hs Htk Hr).
        match goal with
        | |- context [refreshInner_loop env fuel ?tk' ?e' ?w'] =>
            destruct (IH tk' e' w' j) as (res & w2 & Heq & Hmono & Hend)
        end; cbn; try lia; [exact Hj|].
        exists res, w2. split; [exact Heq|]. cbn in Hmono. split; [lia | exact Hend].
      * rewrite (loop_tick_ok _ _ _ _ _ _ _ Hs Htk Hr).
        eexists. eexists. split; [reflexivity|]. cbn. split; [lia | right; lia].
Qed.

Lemma expired_progress fuel force_ tok rb (w : World) j :
  (force_ = false -> mu (self w) = mutex_free) ->
  selects w <= j -> shutdownAt env j = true -> j - selects w < fuel ->
  exists res w', refresh_expired env fuel force_ tok rb w = Returned res w'.
Proof.
  intros Hmu Hle Hj Hfuel. unfold refresh_expired, refreshInner, bind.
  destruct force_; cbn [negb].
  - unfold ret at 1.
    destruct (loop_progress fuel (NewTicker env (ConstantBackOff (duration_mul 1%Z time_Minute)))
                None w j Hle Hj Hfuel) as (((t & v) & [[|msg]|]) & w1 & Heq & _);
      rewrite Heq; cbn; eauto.
  - unfold Lock. rewrite (Hmu eq_refl). cbn.
    match goal with
    | |- context [refreshInner_loop env fuel ?tk' ?e' ?w'] =>
        destruct (loop_progress fuel tk' e' w' j) as (((t & v) & [[|msg]|]) & w1 & Heq & _)
    end; cbn; auto; rewrite Heq; cbn; eauto.
Qed.

Lemma backoff_progress fuel force_ (w : World) j :
  (force_ = false -> mu (self w) = mutex_free) ->
  selects w <= j -> shutdownAt env j = true -> j - selects w < fuel ->
  exists res w', refresh_backoff env fuel force_ w = Returned res w'.
Proof.
  intros Hmu Hle Hj Hfuel. unfold refresh_backoff, bind.
  pose proof (refreshInner_sound fuel
                (ExponentialBackOff (duration_sub (refreshBuffer (self w)) time_Second)) w)
    as Hpost.
  unfold refreshInner in *.
  destruct (loop_progress fuel
              (NewTicker env (ExponentialBackOff
                                (duration_sub (refreshBuffer (self w)) time_Second)))
              None w j Hle Hj Hfuel) as (((t & v) & [e|]) & w1 & Heq & Hmono & Hend).
  - rewrite Heq in Hpost |- *. cbn in Hpost |- *.
    destruct e as [|msg]; cbn [is_ErrShutdown]; [cbn; eauto|].
    destruct Hend as [Hbad | Hsel]; [discriminate Hbad|].
    destruct Hpost as ((_ & Hm & _) & _).
    apply (expired_progress fuel force_ t _ w1 j); auto; try lia.
    rewrite Hm. exact Hmu.
  - rewrite Heq. cbn. eauto.
Qed.

(** Once some select takes the done case, [refresh] returns. *)
Lemma refresh_progress fuel force_ (w : World) j :
  mu (self w) = mutex_free ->
  selects w <= j -> shutdownAt env j = true -> j - selects w < fuel ->
  exists res w', refresh env fuel force_ w = Returned res w'.
Proof.
  intros Hmu Hle Hj Hfuel.
  pose proof (refresh_sound fuel force_ w Hmu) as Hpost.
  assert (Hbody : refresh env fuel force_ w <> OutOfFuel).
  { unfold refresh, call. destruct force_.
    - unfold bind at 1. unfold Lock. cbn [with_defers self]. rewrite Hmu. cbn.
      unfold bind at 1. unfold retriever_RetrieveToken. cbn.
      destruct (RetrieveToken (retr w)) as (r' & (t & v) & [e|]) eqn:Hr; cbn;
        [|discriminate].
      match goal with
      | |- context [refresh_backoff env fuel true ?w0] =>
          pose proof (backoff_sound fuel true w0) as Hb;
          destruct (backoff_progress fuel true w0 j) as (res & w1 & Heq)
      end; cbn; auto; try discriminate.
      rewrite Heq in Hb |- *. cbn in Hb.
      destruct Hb as (_ & _ & [(Hd & Hm) | (? & _)] & _); try discriminate.
      rewrite Hd. cbn in Hm |- *. unfold bind, Unlock. cbn. rewrite Hm. cbn.
      discriminate.
    - pose proof (backoff_sound fuel false (with_defers [] w) (fun _ => Hmu)) as Hb.
      destruct (backoff_progress fuel false (with_defers [] w) j) as (res & w1 & Heq);
        auto.
      rewrite Heq in Hb |- *. cbn in Hb.
      destruct Hb as (_ & _ & [(Hd & Hm) | (_ & Hd & Hm)] & _); rewrite Hd; cbn.
      + discriminate.
      + unfold bind, Unlock. cbn. rewrite Hm. cbn. discriminate. }
  destruct (refresh env fuel force_ w) as [res w' | | |]; cbn in Hpost.
  - eauto.
  - now elim Hbody.
  - contradiction.
  - contradiction.
Qed.

(** ** The token cache accessors *)

Lemma GetToken_returns (w : @World R) :
  writer (mu (self w)) = false ->
  GetToken w =
  Returned (token (self w),
            if (token (self w) =? "")%string then Some ErrInvalidOrExpired else None) w.
Proof.
  destruct w as [[rb once dn fc [wr rd] tk] r c s ds h]. cbn. intros ->.
  reflexivity.
Qed.

Lemma GetToken_blocked (w : @World R) :
  writer (mu (self w)) = true -> GetToken w = Blocked.
Proof.
  destruct w as [[rb once dn fc [wr rd] tk] r c s ds h]. cbn. intros ->.
  reflexivity.
Qed.

Arguments GetToken : simpl never.

(** C6. [GetToken] fails with "Token is invalid or expired" exactly when
    the stored token is the empty string, and otherwise returns the
    stored token with no error; it leaves the refresher as it found it
    (token included).  While the exclusive lock is held it does not
    return at all. *)
Theorem GetToken_fails_iff_token_empty (w : @World R) :
  match GetToken w with
  | Returned (t, err) w' =>
      writer (mu (self w)) = false /\
      w' = w /\ t = token (self w) /\
      (err = Some ErrInvalidOrExpired <-> token (self w) = "") /\
      (err = None <-> token (self w) <> "")
  | Blocked => writer (mu (self w)) = true
  | OutOfFuel | Fatal _ => False
  end.
Proof.
  destruct (writer (mu (self w))) eqn:Hw.
  - rewrite GetToken_blocked by exact Hw. reflexivity.
  - rewrite GetToken_returns by exact Hw.
    repeat split; destruct (String.eqb_spec (token (self w)) ""); 
      try congruence; try discriminate; auto.
Qed.

(** ** The refresh engine *)

(** C3. A forced refresh whose first, immediate fetch succeeds with
    token [t] and validity [v] takes the exclusive lock first, stores
    [t], releases the lock last, and returns the delay
    [v - refreshBuffer] with no error; the lock is held at every step in
    between, and the retriever is called once. *)
Theorem forced_refresh_first_attempt_succeeds fuel (w : World) r' t v :
  mu (self w) = mutex_free ->
  RetrieveToken (retr w) = (r', (t, v, None)) ->
  let rb := refreshBuffer (self w) in
  let locked := with_mu (mkRWMutex true 0) (self w) in
  let stored := with_token t locked in
  let released := with_mu mutex_free stored in
  exists w',
    refresh env fuel true w = Returned (duration_sub v rb, None) w' /\
    self w' = released /\ token (self w') = t /\ mu (self w') = mutex_free /\
    retr w' = r' /\ calls w' = S (calls w) /\
    history w' = history w ++ [(EvLock, locked); (EvRetrieve t v None, locked);
                               (EvSetToken t, stored); (EvUnlock, released)] /\
    locked_throughout [(EvLock, locked); (EvRetrieve t v None, locked);
                       (EvSetToken t, stored)] /\
    (int64_range (v - rb) -> duration_sub v rb = (v - rb)%Z).
Proof.
  intros Hmu Hr rb locked stored released.
  unfold refresh, call.
  unfold bind at 1. unfold Lock. cbn [with_defers self]. rewrite Hmu. cbn.
  unfold bind at 1. unfold retriever_RetrieveToken. cbn. rewrite Hr. cbn.
  eexists. split; [reflexivity|]. cbn.
  repeat split.
  - rewrite <- !app_assoc. reflexivity.
  - repeat constructor.
  - apply duration_sub_exact.
Qed.

(** C2 (amended).  If the retriever fails exactly [k] times, none of
    the failures carrying the [ErrShutdown] value, and then succeeds
    with validity [v], and no select takes the done case meanwhile, a
    forced refresh that finds the mutex free calls the retriever exactly
    [k + 1] times and returns the delay [v - refreshBuffer] (the [int64]
    difference, which is the exact one whenever that is
    representable). *)
Theorem forced_refresh_calls_retriever_k_plus_1 k fuel (w : World) t v r_end :
  fails_then_succeeds k (retr w) t v r_end ->
  never_shutdown env ->
  mu (self w) = mutex_free ->
  k < fuel ->
  let rb := refreshBuffer (self w) in
  exists w',
    refresh env fuel true w = Returned (duration_sub v rb, None) w' /\
    calls w' = calls w + (k + 1) /\
    retr w' = r_end /\ token (self w') = t /\
    (int64_range (v - rb) -> duration_sub v rb = (v - rb)%Z).
Proof.
  intros Hfs Hns Hmu Hfuel rb.
  destruct (refresh_retries_until_success k fuel true w t v r_end Hfs Hns Hmu Hfuel)
    as (w' & Heq & Htok & _ & _ & Hretr & Hcalls & _).
  exists w'. repeat split; auto.
  - rewrite Hcalls. lia.
  - apply duration_sub_exact.
Qed.

(** C10. If the fetch that succeeds returns the empty string as its
    token, the refresh, forced or not, stores the empty string and
    returns success, and [GetToken] then fails with "Token is invalid or
    expired", call after call. *)
Theorem empty_token_success_reads_as_invalid k fuel force_ (w : World) v r_end :
  fails_then_succeeds k (retr w) "" v r_end ->
  never_shutdown env ->
  mu (self w) = mutex_free ->
  k < fuel ->
  exists w',
    refresh env fuel force_ w =
      Returned (duration_sub v (refreshBuffer (self w)), None) w' /\
    token (self w') = "" /\
    GetToken w' = Returned ("", Some ErrInvalidOrExpired) w' /\
    bind GetToken (fun _ => GetToken) w' = Returned ("", Some ErrInvalidOrExpired) w'.
Proof.
  intros Hfs Hns Hmu Hfuel.
  destruct (refresh_retries_until_success k fuel force_ w "" v r_end Hfs Hns Hmu Hfuel)
    as (w' & Heq & Htok & Hm & _).
  assert (Hget : GetToken w' = Returned ("", Some ErrInvalidOrExpired) w').
  { rewrite GetToken_returns by (rewrite Hm; reflexivity). rewrite Htok. reflexivity. }
  exists w'. repeat split; auto.
  unfold bind. rewrite Hget. exact Hget.
Qed.

(** C1 (the code departs from the claim).  When the exponential phase of
    an unforced refresh succeeds, after [k] failures, with token [t],
    the new token is stored and the old one stays readable until then,
    but the mutex is never taken: the history of the call holds no
    [EvLock], and the write to the token field happens with the
    exclusive lock not held. *)
Theorem unforced_refresh_stores_token_without_lock k fuel (w : World) t v r_end :
  fails_then_succeeds k (retr w) t v r_end ->
  (forall i, i <= k -> shutdownAt env (selects w + i) = false) ->
  ticks_at_least (S k)
    (NewTicker env (ExponentialBackOff
                      (duration_sub (refreshBuffer (self w)) time_Second))) ->
  k < fuel ->
  mu (self w) = mutex_free ->
  exists w' h,
    refresh env fuel false w =
      Returned (duration_sub v (refreshBuffer (self w)), None) w' /\
    token (self w') = t /\
    history w' = history w ++ h ++ [(EvSetToken t, with_token t (self w))] /\
    readers_find (token (self w)) mutex_free h /\
    writer (mu (with_token t (self w))) = false /\
    Forall (fun em => fst em <> EvLock /\ writer (mu (snd em)) = false)
           (h ++ [(EvSetToken t, with_token t (self w))]).
Proof.
  intros Hfs Hs Htk Hfuel Hmu.
  unfold refresh, call, refresh_backoff, refreshInner, bind.
  cbn [with_defers self].
  destruct (loop_retries_until_success k fuel _ None (with_defers [] w) t v r_end
              Hfs Hs Htk Hfuel) as (w1 & h & Heq & Hadv & Hq).
  rewrite Heq. destruct Hadv as (Hself & Hretr & Hcalls & Hsel & Hdef & Hhist).
  cbn in Hself, Hdef, Hhist, Hq. cbn. rewrite Hdef. cbn.
  rewrite Hmu in Hq.
  eexists. exists (h ++ [(EvRetrieve t v None, self w)]).
  split; [reflexivity|]. cbn. rewrite Hself, Hhist, Hmu.
  assert (Hq' : readers_find (token (self w)) mutex_free
                             (h ++ [(EvRetrieve t v None, self w)])).
  { apply Forall_app. split; [exact Hq|].
    constructor; [cbn; auto | constructor]. }
  repeat split.
  - rewrite <- !app_assoc. reflexivity.
  - exact Hq'.
  - apply Forall_app. split.
    + eapply Forall_impl; [|exact Hq'].
      intros (ev & m) (Hev & _ & Hm). cbn in *. rewrite Hm.
      split; [|reflexivity]. intros ->. discriminate.
    + constructor; [|constructor]. cbn. rewrite Hmu. split; [discriminate | reflexivity].
Qed.

(** C5. Whatever the retriever and the environment do, a call of
    [refresh], forced or not, that finds the mutex free ends in one of
    two ways only: success, with no error, the token of a successful
    fetch stored and the delay that fetch's validity less the refresh
    buffer (on [int64], so it may be negative), or the error
    [ErrShutdown] with delay 0.  It never returns another error, never
    faults and does not wait for the mutex for ever; and once some
    select takes the done case it does return. *)
Theorem refresh_returns_success_or_ErrShutdown fuel force_ (w : World) :
  mu (self w) = mutex_free ->
  match refresh env fuel force_ w with
  | Returned (d, None) w' =>
      exists t v h0 m tail,
        history w' = history w ++ h0 ++ (EvRetrieve t v None, m) :: tail /\
        d = duration_sub v (refreshBuffer (self w)) /\
        token (self w') = t
  | Returned (d, Some e) w' => e = ErrShutdown /\ d = 0%Z
  | OutOfFuel => True
  | Blocked | Fatal _ => False
  end /\
  (forall j, selects w <= j -> shutdownAt env j = true -> j - selects w < fuel ->
             exists res w', refresh env fuel force_ w = Returned res w').
Proof.
  intros Hmu. split.
  - pose proof (refresh_sound fuel force_ w Hmu) as Hpost.
    destruct (refresh env fuel force_ w) as [(d & [e|]) w' | | |]; cbn in Hpost; auto.
    + destruct Hpost as (_ & _ & _ & _ & h & _ & He & Hd & _). auto.
    + destruct Hpost as (_ & _ & _ & _ & h & Hh & t & v & h0 & m & tail & -> & Hd & Ht).
      exists t, v, h0, m, tail. auto.
  - intros j Hle Hj Hfuel. exact (refresh_progress fuel force_ w j Hmu Hle Hj Hfuel).
Qed.

(** C4 (amended).  When the exponential phase of an unforced refresh
    runs out of ticks, every fetch having failed and the last failure
    being no [ErrShutdown] value, the engine takes the exclusive lock,
    stores the empty string and logs the failure; up to that point
    readers found the old token and a free mutex.  The constant phase
    starts in that state, [w_rec], and runs with the lock held: after
    any number of failed fetches it is still in a state with the token
    cleared and the writer in, so a [GetToken] arriving at any step of
    the recovery blocks, however long the recovery lasts; and as long
    as [refresh] has not returned, it is the constant phase that has
    not.  The lock is released when [refresh] returns, and a reader
    then finds the token of the fetch that succeeded (with no error,
    unless that token is empty), or, if the service was shut down
    instead, the "Token is invalid or expired" failure; never the old
    token as such. *)
Theorem unforced_expiry_locks_readers_out n fuel errs e_last (w : World) r1 :
  exponentialTicks env (duration_sub (refreshBuffer (self w)) time_Second) = Some n ->
  fails_with (errs ++ [e_last]) (retr w) r1 ->
  length errs = n ->
  is_ErrShutdown e_last = false ->
  (forall i, i <= S n -> shutdownAt env (selects w + i) = false) ->
  S n < fuel ->
  mu (self w) = mutex_free ->
  let locked := with_mu (mkRWMutex true 0) (self w) in
  let cleared := with_token "" locked in
  exists h_exp msg w_rec,
    readers_find (token (self w)) mutex_free h_exp /\
    self w_rec = cleared /\ retr w_rec = r1 /\
    calls w_rec = calls w + S n /\ selects w_rec = selects w + S (S n) /\
    history w_rec =
      history w ++ h_exp ++
      [(EvTickerClosed, self w); (EvLock, locked);
       (EvSetToken "", cleared); (EvCrit msg, cleared)] /\
    (forall em,
        In em [(EvLock, locked); (EvSetToken "", cleared); (EvCrit msg, cleared)] ->
        GetToken (set_self (snd em) w) = Blocked) /\
    (forall errs2 r2 fuel2,
        fails_with errs2 r1 r2 ->
        (forall i, i < length errs2 -> shutdownAt env (selects w_rec + i) = false) ->
        exists w_j h_j,
          refreshInner_loop env (length errs2 + fuel2) None None w_rec =
            refreshInner_loop env fuel2 None (last (map Some errs2) None) w_j /\
          self w_j = cleared /\ retr w_j = r2 /\
          history w_j = history w_rec ++ h_j /\
          readers_find "" (mkRWMutex true 0) h_j /\
          GetToken w_j = Blocked) /\
    match refresh env fuel false w with
    | Returned (d, err) w' =>
        exists h_rec,
          history w' = history w_rec ++ h_rec ++ [(EvUnlock, self w')] /\
          (forall em, In em h_rec -> GetToken (set_self (snd em) w) = Blocked) /\
          mu (self w') = mutex_free /\
          ((exists t v m,
               err = None /\ d = duration_sub v (refreshBuffer (self w)) /\
               In (EvRetrieve t v None, m) h_rec /\
               token (self w') = t /\
               GetToken w' =
                 Returned (t, if (t =? "")%string
                              then Some ErrInvalidOrExpired else None) w') \/
           (err = Some ErrShutdown /\ d = 0%Z /\
            token (self w') = "" /\
            GetToken w' = Returned ("", Some ErrInvalidOrExpired) w'))
    | OutOfFuel =>
        refreshInner env fuel (ConstantBackOff (duration_mul 1%Z time_Minute)) w_rec =
          OutOfFuel
    | Blocked | Fatal _ => False
    end.
Proof.
  intros Hticks Hk Hlen He Hs Hfuel Hmu locked cleared.
  destruct (refreshInner_exhausts_with n fuel _ errs e_last (with_defers [] w) r1
              Hticks Hk Hlen Hs Hfuel)
    as (w1 & h & Heq & (Hself & Hretr & Hcalls & Hsel & Hdef & Hhist) & Hq).
  cbn in Hself, Hcalls, Hsel, Hdef, Hhist, Hq. rewrite Hmu in Hq.
  set (msg := "Could not refresh token within refresh buffer. Stored token is now expired").
  set (w2 := with_defers [DeferUnlock] (emit EvLock (set_self locked w1))).
  set (w_rec := emit (EvCrit msg) (emit (EvSetToken "") (set_self cleared w2))).
  assert (Hrec_self : self w_rec = cleared) by reflexivity.
  assert (Hrec_hist : history w_rec =
            history w ++ h ++
            [(EvTickerClosed, self w); (EvLock, locked);
             (EvSetToken "", cleared); (EvCrit msg, cleared)]).
  { cbn. rewrite Hhist, <- !app_assoc. reflexivity. }
  assert (Hrefresh : refresh env fuel false w =
            call (fun _ =>
                    bind (refreshInner env fuel
                            (ConstantBackOff (duration_mul 1%Z time_Minute)))
                         (fun r =>
                            match r with
                            | (tok2, expiresIn2, Some ErrShutdown) =>
                                ret (0%Z, Some ErrShutdown)
                            | (tok2, expiresIn2, _) =>
                                bind (setToken tok2)
                                  (fun _ => ret (duration_sub expiresIn2
                                                   (refreshBuffer (self w)), None))
                            end) w_rec) w).
  { unfold refresh, call. cbn [negb]. unfold refresh_backoff at 1. unfold bind at 1.
    cbn [with_defers self] in Heq |- *. rewrite Heq, He.
    unfold refresh_expired. cbn [negb]. unfold bind at 1. unfold bind at 1.
    unfold Lock. rewrite Hself, Hmu. cbn [writer readers mutex_free orb negb Nat.eqb].
    unfold bind at 1. unfold defer at 1. unfold bind at 1. unfold setToken at 1.
    unfold bind at 1. unfold logger_Crit at 1.
    cbn [defers emit set_self with_defers self]. rewrite Hdef.
    subst w_rec w2 cleared locked msg. cbn [with_defers emit set_self self].
    reflexivity. }
  exists h, msg, w_rec.
  split; [exact Hq|]. split; [exact Hrec_self|]. split; [exact Hretr|].
  split; [exact Hcalls|]. split; [exact Hsel|]. split; [exact Hrec_hist|].
  split.
  { intros em Hin. apply GetToken_blocked.
    destruct Hin as [<- | [<- | [<- | []]]]; reflexivity. }
  split.
  { intros errs2 r2 fuel2 Hk2 Hs2.
    destruct (loop_fails_with errs2 fuel2 None None w_rec r2)
      as (w_j & h_j & Hj & (Hjself & Hjretr & _ & _ & _ & Hjhist) & Hjq).
    - change (retr w_rec) with (retr w1). rewrite Hretr. exact Hk2.
    - exact Hs2.
    - exact I.
    - exists w_j, h_j. split; [exact Hj|]. split; [exact Hjself|].
      split; [exact Hjretr|]. split; [exact Hjhist|]. split; [exact Hjq|].
      apply GetToken_blocked. rewrite Hjself. reflexivity. }
  rewrite Hrefresh. unfold call, bind.
  pose proof (refreshInner_sound fuel
                (ConstantBackOff (duration_mul 1%Z time_Minute)) w_rec) as Hl.
  destruct (refreshInner env fuel (ConstantBackOff (duration_mul 1%Z time_Minute)) w_rec)
    as [((t & v) & [e2|]) w3 | | |]; cbn in Hl; try contradiction; [| |reflexivity].
  - destruct Hl as ((Ht & Hm & Hrb & Hf) & Hd & h2 & Hh & Hq2 & (-> & -> & h0 & m & Hx)).
    destruct Hx as [(-> & ->) | (Hn & _)]; [|now elim Hn].
    cbn [ret]. change (defers w_rec) with [DeferUnlock] in Hd. rewrite Hd.
    cbn [run_defers run_deferred]. unfold bind, Unlock. cbn [self with_defers].
    rewrite Hm. cbn.
    exists (h0 ++ [(EvDone, m)]).
    split; [rewrite Hh; rewrite <- !app_assoc; reflexivity|].
    split.
    { intros em Hin. apply GetToken_blocked. cbn.
      unfold readers_find in Hq2. rewrite Forall_forall in Hq2.
      destruct (Hq2 em Hin) as (_ & _ & Hmu2). rewrite Hmu2. reflexivity. }
    split; [reflexivity|].
    right.
    split; [reflexivity|]. split; [reflexivity|].
    split; [exact Ht|].
    rewrite GetToken_returns by reflexivity. cbn. rewrite Ht. reflexivity.
  - destruct Hl as ((Ht & Hm & Hrb & Hf) & Hd & h2 & Hh & Hq2 & (h0 & m & ->)).
    unfold setToken, ret. cbn [defers emit set_self].
    change (defers w_rec) with [DeferUnlock] in Hd. rewrite Hd.
    cbn [run_defers run_deferred]. unfold bind, Unlock. cbn [self with_defers emit set_self mu with_token].
    rewrite Hm. cbn.
    exists ((h0 ++ [(EvRetrieve t v None, m)]) ++
            [(EvSetToken t, with_token t (self w3))]).
    split; [rewrite Hh; rewrite <- !app_assoc; reflexivity|].
    split.
    { intros em Hin. apply GetToken_blocked. cbn.
      apply in_app_or in Hin. destruct Hin as [Hin | [<- | []]].
      - unfold readers_find in Hq2. rewrite Forall_forall in Hq2.
        destruct (Hq2 em Hin) as (_ & _ & Hmu2). rewrite Hmu2. reflexivity.
      - cbn. rewrite Hm. reflexivity. }
    split; [reflexivity|].
    left. exists t, v, m.
    split; [reflexivity|]. split; [reflexivity|].
    split; [apply in_or_app; left; apply in_or_app; right; left; reflexivity|].
    split; [reflexivity|].
    rewrite GetToken_returns by reflexivity. reflexivity.
Qed.

(** ** The scheduler goroutine and [Refresh] *)

Lemma boot_inv rb (r : R) : system_inv (boot rb r).
Proof. repeat split. Qed.

Lemma step_inv a (s : System) : system_inv s -> system_inv (step env a s).
Proof.
  intros (Hmu & Hcap & Hq & Hcl & Hrq).
  destruct s as [w p tm wk]. cbn in *.
  destruct a; cbn.
  - (* CallRefresh *)
    unfold Refresh, select_send_default. rewrite Hcl, Hrq, Hq, Hcap.
    destruct p; cbn; repeat split; auto.
  - (* CallClose *)
    unfold Close. destruct (closeOnce (self w)); cbn; repeat split; auto.
  - (* TimerFires *)
    destruct p; cbn; repeat split; auto. cbn. now rewrite Hrq.
  - (* TakeDone *)
    destruct p; cbn; try (repeat split; auto; fail).
    destruct (closed (done (self w))); cbn; repeat split; auto. cbn. now rewrite Hrq.
  - (* RunRefresh *)
    assert (Hrun : forall force_,
               match p with AtSelect => False | _ => True end ->
               system_inv (after_refresh (mkSystem w p tm wk) (refresh env fuel force_ w))).
    { intros force_ Hp.
      pose proof (refresh_sound fuel force_ w Hmu) as Hpost.
      destruct (refresh env fuel force_ w) as [(d & [[|msg]|]) w' | | |];
        cbn in Hpost |- *; try contradiction;
        try (repeat split; auto; fail);
        destruct Hpost as (Hmu' & _ & Hf & _); unfold force_chan_kept in Hf;
        unfold system_inv; cbn; rewrite ?Hf, ?Hcap, ?Hq, ?Hcl, ?Hrq;
        destruct p; try contradiction; repeat split; auto. }
    destruct p; cbn; try (repeat split; auto; fail); apply Hrun; exact I.
Qed.

Lemma run_inv acts : forall s : System, system_inv s -> system_inv (run env acts s).
Proof.
  induction acts as [|a acts IH]; intros s Hs; [exact Hs|].
  cbn. apply IH, step_inv, Hs.
Qed.

Lemma refresh_calls_wake_once n : forall s : System,
  system_inv s ->
  wakeups (run env (repeat CallRefresh n) s) <= wakeups s + 1 /\
  (outstanding s = 1 -> run env (repeat CallRefresh n) s = s).
Proof.
  induction n as [|n IH]; intros s Hs; [cbn; split; [lia | reflexivity]|].
  cbn [repeat run].
  destruct (IH (step env CallRefresh s) (step_inv CallRefresh s Hs)) as (IHw & IHo).
  destruct Hs as (Hmu & Hcap & Hq & Hcl & Hrq).
  destruct s as [[m r c sl ds h] p tm wk]. destruct m as [rb once dn [cap qd rq cl] l tk].
  cbn in *. subst cap qd cl.
  unfold outstanding in *. cbn in *.
  destruct p; cbn in *; subst rq; cbn in *; split; try lia; try discriminate; auto.
  - rewrite IHo by reflexivity. cbn. lia.
Qed.

Lemma inv_outstanding (s : @System R) : system_inv s -> outstanding s <= 1.
Proof.
  intros (_ & _ & Hq & _). unfold outstanding. rewrite Hq.
  destruct (pc s); cbn; lia.
Qed.

Lemma inv_Refresh_returns (s : @System R) :
  system_inv s -> exists w', Refresh (world s) = Returned tt w'.
Proof.
  intros (_ & Hcap & Hq & Hcl & Hrq).
  unfold Refresh, select_send_default. rewrite Hcl, Hq, Hcap.
  destruct (recvq (force (self (world s)))); cbn; eauto.
Qed.

Lemma inv_Refresh_dropped (s : @System R) :
  system_inv s -> pc s <> AtSelect -> step env CallRefresh s = s.
Proof.
  intros (_ & Hcap & Hq & Hcl & Hrq) Hpc.
  destruct s as [[m r c sl ds h] p tm wk]. destruct m as [rb once dn [cap qd rq cl] l tk].
  cbn in *. subst cap qd cl.
  destruct p; try (now elim Hpc); subst rq; reflexivity.
Qed.

Lemma step_wakeups a (s : @System R) :
  wakeups (step env a s) + parked (step env a s) <=
    wakeups s + parked s + (if is_RunRefresh a then 1 else 0) /\
  wakeups s <= wakeups (step env a s) /\
  wakeups (step env a s) <= wakeups s + (if is_CallRefresh a then 1 else 0).
Proof.
  destruct s as [w p tm wk]. unfold parked.
  destruct a; cbn.
  - destruct (Refresh w) as [u w' | | |]; cbn; [|destruct p; cbn; lia ..].
    destruct (select_send_default (force (self w))) as (c & [| |]);
      destruct p; cbn; lia.
  - destruct p; cbn; lia.
  - destruct p; cbn; lia.
  - destruct p; cbn; try lia. destruct (closed (done (self w))); cbn; lia.
  - assert (Hafter : forall force_ p0,
               p0 <> AtSelect ->
               wakeups (after_refresh (mkSystem w p0 tm wk) (refresh env fuel force_ w)) +
               match pc (after_refresh (mkSystem w p0 tm wk) (refresh env fuel force_ w)) with
               | AtSelect => 1 | _ => 0 end <= wk + 1 /\
               wk <= wakeups (after_refresh (mkSystem w p0 tm wk)
                                (refresh env fuel force_ w)) /\
               wakeups (after_refresh (mkSystem w p0 tm wk)
                          (refresh env fuel force_ w)) <= wk + 0).
    { intros force_ p0 Hp0.
      destruct (refresh env fuel force_ w) as [(d & [[|msg]|]) w' | | |]; cbn;
        try lia; destruct p0; cbn; try lia; now elim Hp0. }
    destruct p; cbn; try lia;
      match goal with
      | |- context [after_refresh (mkSystem w ?p0 tm wk) (refresh env fuel ?f w)] =>
          destruct (Hafter f p0) as (H1 & H2 & H3); [discriminate | lia]
      end.
Qed.

Lemma run_wakeups acts : forall s : @System R,
  wakeups (run env acts s) + parked (run env acts s) <=
    wakeups s + parked s + count_actions is_RunRefresh acts /\
  wakeups (run env acts s) <= wakeups s + count_actions is_CallRefresh acts.
Proof.
  unfold count_actions.
  induction acts as [|a acts IH]; intros s; [cbn; lia|].
  cbn [run filter].
  destruct (IH (step env a s)) as (I1 & I2).
  destruct (step_wakeups a s) as (S1 & S2 & S3).
  destruct (is_RunRefresh a), (is_CallRefresh a); cbn [length]; lia.
Qed.

(** C9 (amended).  In every state the system reaches from
    [NewTokenRefresher], whatever the callers and the goroutine have
    done so far: a call of [Refresh] returns at once (its select has a
    default case); at most one force request is outstanding; a call
    made while the goroutine is not parked at its select (a request is
    outstanding, or any refresh is running) changes nothing, the
    request is dropped silently; any number of calls in a row wake the
    goroutine for a forced refresh at most once.  Over any further
    interleaving of calls and goroutine steps, the forced refreshes set
    off are at most as many as the calls of [Refresh], and at most one
    more than the refreshes the goroutine has run meanwhile: a second
    forced refresh needs the goroutine to have come back to its
    select. *)
Theorem Refresh_never_blocks_and_coalesces rb (r : R) acts :
  let s := run env acts (boot rb r) in
  (exists w', Refresh (world s) = Returned tt w') /\
  outstanding s <= 1 /\
  (pc s <> AtSelect -> step env CallRefresh s = s) /\
  (outstanding s = 1 -> step env CallRefresh s = s) /\
  (forall n,
      wakeups (run env (repeat CallRefresh n) s) <= wakeups s + 1 /\
      outstanding (run env (repeat CallRefresh n) s) <= 1) /\
  (forall acts2,
      wakeups (run env acts2 s) <= wakeups s + count_actions is_CallRefresh acts2 /\
      wakeups (run env acts2 s) <= wakeups s + 1 + count_actions is_RunRefresh acts2).
Proof.
  intros s.
  assert (Hs : system_inv s) by (apply run_inv, boot_inv).
  split; [exact (inv_Refresh_returns s Hs)|].
  split; [exact (inv_outstanding s Hs)|].
  split; [exact (inv_Refresh_dropped s Hs)|].
  split; [|split].
  - intros Ho. exact (proj2 (refresh_calls_wake_once 1 s Hs) Ho).
  - intros n. split.
    + exact (proj1 (refresh_calls_wake_once n s Hs)).
    + apply inv_outstanding, run_inv, Hs.
  - intros acts2. destruct (run_wakeups acts2 s) as (H1 & H2).
    split; [exact H2|]. unfold parked in H1. destruct (pc s), (pc (run env acts2 s)); lia.
Qed.

(** ** What shutdown does to the cached token *)

(** A phase of a forced refresh that ends on an error has not written
    the token. *)
Lemma expired_forced_abandoned fuel tok rb (w : World) d e w1 :
  refresh_expired env fuel true tok rb w = Returned (d, Some e) w1 ->
  token (self w1) = token (self w) /\ mu (self w1) = mu (self w) /\
  defers w1 = defers w.
Proof.
  unfold refresh_expired, bind. cbn [negb]. unfold ret at 1.
  pose proof (refreshInner_sound fuel
                (ConstantBackOff (duration_mul 1%Z time_Minute)) w) as Hl.
  destruct (refreshInner env fuel _ w) as [((t & v) & [[|msg]|]) w2 | | |];
    cbn in Hl |- *; try discriminate.
  intros [= <- <- <-].
  destruct Hl as ((Ht & Hm & _) & Hd & _). auto.
Qed.

Lemma backoff_forced_abandoned fuel (w : World) d e w1 :
  refresh_backoff env fuel true w = Returned (d, Some e) w1 ->
  token (self w1) = token (self w) /\ mu (self w1) = mu (self w) /\
  defers w1 = defers w.
Proof.
  unfold refresh_backoff, bind.
  pose proof (refreshInner_sound fuel
                (ExponentialBackOff (duration_sub (refreshBuffer (self w)) time_Second))
                w) as Hl.
  destruct (refreshInner env fuel _ w) as [((t & v) & [e1|]) w2 | | |];
    cbn in Hl |- *; try discriminate.
  destruct Hl as ((Ht & Hm & _) & Hd & _).
  destruct (is_ErrShutdown e1).
  - intros [= <- <- <-]. auto.
  - intros Heq. apply expired_forced_abandoned in Heq.
    destruct Heq as (Ht2 & Hm2 & Hd2). repeat split; congruence.
Qed.

(** What an abandoned refresh leaves in the cache: in the forced mode
    the token of its first fetch, which failed; in the unforced mode the
    token it found, unless it had already taken the lock and cleared
    the token. *)
Lemma abandoned_refresh_token fuel force_ (w : World) d e w' :
  mu (self w) = mutex_free ->
  refresh env fuel force_ w = Returned (d, Some e) w' ->
  if force_
  then exists r' t v e0,
         RetrieveToken (retr w) = (r', (t, v, Some e0)) /\ token (self w') = t
  else (token (self w') = token (self w) /\
        exists h, history w' = history w ++ h /\
                  readers_find (token (self w)) mutex_free h) \/
       (token (self w') = "" /\
        exists h_exp m1 m2 tail,
          history w' =
            history w ++ h_exp ++ (EvLock, m1) :: (EvSetToken "", m2) :: tail /\
          readers_find (token (self w)) mutex_free h_exp).
Proof.
  intros Hmu. unfold refresh, call. destruct force_.
  - unfold bind at 1. unfold Lock. cbn [with_defers self]. rewrite Hmu. cbn.
    unfold bind at 1. unfold retriever_RetrieveToken. cbn.
    destruct (RetrieveToken (retr w)) as (r' & (t & v) & [e0|]) eqn:Hr; cbn;
      [|discriminate].
    match goal with
    | |- context [refresh_backoff env fuel true ?w0] =>
        destruct (refresh_backoff env fuel true w0) as [(d1 & [e1|]) w1 | | |] eqn:Hb
    end; try discriminate.
    + apply backoff_forced_abandoned in Hb. cbn in Hb.
      destruct Hb as (Ht & Hm & Hd). rewrite Hd. cbn. unfold bind, Unlock. cbn.
      rewrite Hm. cbn. intros [= <- <- <-]. exists r', t, v, e0. auto.
    + destruct (run_defers (defers w1) (with_defers [] w1)) as [u w2 | | |];
        discriminate.
  - cbn [with_defers self]. unfold refresh_backoff, bind.
    pose proof (refreshInner_sound fuel
                  (ExponentialBackOff
                     (duration_sub (refreshBuffer (self (with_defers [] w))) time_Second))
                  (with_defers [] w)) as Hl.
    cbn [with_defers self] in Hl |- *.
    destruct (refreshInner env fuel _ (with_defers [] w))
      as [((t & v) & [e1|]) w1 | | |]; cbn in Hl |- *; try discriminate.
    + destruct Hl as ((Ht & Hm & _) & Hd & h & Hh & Hq & (-> & -> & _)).
      rewrite Hmu in Hq, Hm.
      destruct (is_ErrShutdown e1).
      * cbn. rewrite Hd. cbn. intros Heq. injection Heq as _ _ <-. left. cbn.
        split; [exact Ht|]. exists h. auto.
      * unfold refresh_expired, bind. cbn [negb]. unfold Lock. rewrite Hm. cbn.
        match goal with
        | |- context [refreshInner env fuel ?b ?w0] =>
            pose proof (refreshInner_sound fuel b w0) as Hl2;
            destruct (refreshInner env fuel b w0) as [((t2 & v2) & [[|msg]|]) w2 | | |]
        end; cbn in Hl2 |- *; try discriminate.
        -- destruct Hl2 as ((Ht2 & Hm2 & _) & Hd2 & h2 & Hh2 & _).
           rewrite Hd in Hd2. rewrite Hd2. cbn. unfold bind, Unlock. cbn. rewrite Hm2. cbn.
           intros Heq. injection Heq as _ _ <-. right. cbn.
           split; [exact Ht2|].
           eexists h, _, _, _. split; [|exact Hq].
           rewrite Hh2, Hh, <- !app_assoc. cbn. reflexivity.
        -- destruct Hl2 as ((_ & Hm2 & _) & Hd2 & _).
           rewrite Hd in Hd2. rewrite Hd2. cbn. unfold bind, Unlock. cbn.
           rewrite Hm2. cbn. intros Heq; discriminate Heq.
        -- destruct Hl2 as ((_ & Hm2 & _) & Hd2 & _).
           rewrite Hd in Hd2. rewrite Hd2. cbn. unfold bind, Unlock. cbn.
           rewrite Hm2. cbn. intros Heq; discriminate Heq.
    + destruct Hl as (_ & Hd & _). rewrite Hd. cbn. intros Heq; discriminate Heq.
Qed.

(** Only a refresh that the goroutine runs writes the token or calls
    the retriever. *)
Lemma step_without_refresh a (s : @System R) :
  (forall fuel, a <> RunRefresh fuel) ->
  token (self (world (step env a s))) = token (self (world s)) /\
  mu (self (world (step env a s))) = mu (self (world s)) /\
  calls (world (step env a s)) = calls (world s) /\
  retr (world (step env a s)) = retr (world s).
Proof.
  intros Ha. destruct s as [w p tm wk].
  destruct a; cbn.
  - unfold Refresh.
    destruct (select_send_default (force (self w))) as (c & [| |]);
      cbn; destruct p; repeat split; reflexivity.
  - unfold Close. destruct (closeOnce (self w)); repeat split; reflexivity.
  - destruct p; repeat split; reflexivity.
  - destruct p; try (repeat split; reflexivity).
    destruct (closed (done (self w))); repeat split; reflexivity.
  - now elim (Ha fuel).
Qed.

(** The goroutine that has returned stays gone. *)
Lemma exited_stays acts : forall s : @System R,
  pc s = Exited ->
  pc (run env acts s) = Exited /\
  token (self (world (run env acts s))) = token (self (world s)) /\
  mu (self (world (run env acts s))) = mu (self (world s)) /\
  calls (world (run env acts s)) = calls (world s) /\
  retr (world (run env acts s)) = retr (world s) /\
  timer (run env acts s) = timer s /\
  wakeups (run env acts s) = wakeups s.
Proof.
  induction acts as [|a acts IH]; intros s Hpc; [repeat split; auto|].
  cbn [run].
  assert (Hstep : pc (step env a s) = Exited /\
                  token (self (world (step env a s))) = token (self (world s)) /\
                  mu (self (world (step env a s))) = mu (self (world s)) /\
                  calls (world (step env a s)) = calls (world s) /\
                  retr (world (step env a s)) = retr (world s) /\
                  timer (step env a s) = timer s /\
                  wakeups (step env a s) = wakeups s).
  { destruct s as [w p tm wk]. cbn in Hpc. subst p.
    destruct a; cbn; try (repeat split; reflexivity).
    - unfold Refresh.
      destruct (select_send_default (force (self w))) as (c & [| |]);
        cbn; repeat split; reflexivity.
    - unfold Close. destruct (closeOnce (self w)); repeat split; reflexivity. }
  destruct Hstep as (H1 & H2 & H3 & H4 & H5 & H6 & H7).
  destruct (IH _ H1) as (I1 & I2 & I3 & I4 & I5 & I6 & I7).
  repeat split; congruence.
Qed.

(** C7 (amended).  Shutdown itself never writes the cached token, but
    it does not undo or hold back what a refresh in flight stores.
    (1) [Close] changes neither the token nor the mutex and returns no
    error.  (2) A select at which the done case is taken makes
    [refreshInner] return [ErrShutdown] on the spot, without a call of
    the retriever and with the token untouched.  (3) Whenever [refresh]
    returns an error, the error is [ErrShutdown], the delay is zero, and
    nothing has happened since the select that gave up but the release
    of the lock.  (4) The token an abandoned [refresh] leaves is the
    one it found if the refresh is unforced and never took the lock;
    the empty string if it is unforced and had taken the lock and
    cleared the token (its exponential phase had run out); and, if it is
    forced, the token of its first fetch, which failed, whatever was
    cached before.  (5) Outside a running refresh nothing writes the
    token: no call of [Close] or [Refresh], no timer event and no taking
    of the done case changes the token or calls the retriever.  (6) A
    [refresh] that returns an error makes the goroutine exit, and once
    it has exited no refresh runs any more: the token and the call count
    of the retriever stay as they are. *)
Theorem shutdown_keeps_cached_token :
  (forall m : tokenRefresher,
      token (fst (Close m)) = token m /\ mu (fst (Close m)) = mu m /\
      snd (Close m) = None) /\
  (forall fuel tk err (w : World),
      shutdownAt env (selects w) = true ->
      exists w',
        refreshInner_loop env (S fuel) tk err w =
          Returned ("", 0%Z, Some ErrShutdown) w' /\
        token (self w') = token (self w) /\
        calls w' = calls w /\
        history w' = history w ++ [(EvDone, self w')]) /\
  (forall fuel force_ (w : World) d e w',
      mu (self w) = mutex_free ->
      refresh env fuel force_ w = Returned (d, Some e) w' ->
      e = ErrShutdown /\ d = 0%Z /\
      (exists h0 ev m tail,
          history w' = history w ++ h0 ++ (ev, m) :: tail /\
          is_select_exit ev = true /\
          token (self w') = token m /\
          Forall (fun em => is_unlock (fst em) = true) tail) /\
      (if force_
       then exists r' t v e0,
              RetrieveToken (retr w) = (r', (t, v, Some e0)) /\
              token (self w') = t
       else (token (self w') = token (self w) /\
             exists h, history w' = history w ++ h /\
                       readers_find (token (self w)) mutex_free h) \/
            (token (self w') = "" /\
             exists h_exp m1 m2 tail,
               history w' =
                 history w ++ h_exp ++ (EvLock, m1) :: (EvSetToken "", m2) :: tail /\
               readers_find (token (self w)) mutex_free h_exp))) /\
  (forall a (s : System),
      (forall fuel, a <> RunRefresh fuel) ->
      token (self (world (step env a s))) = token (self (world s)) /\
      calls (world (step env a s)) = calls (world s)) /\
  (forall fuel (s : System) d e w',
      mu (self (world s)) = mutex_free ->
      refresh env fuel (match pc s with RunTimed => false | _ => true end) (world s) =
        Returned (d, Some e) w' ->
      pc s = AtStartup \/ pc s = RunTimed \/ pc s = RunForced ->
      step env (RunRefresh fuel) s = mkSystem w' Exited (timer s) (wakeups s)) /\
  (forall acts (s : System),
      pc s = Exited ->
      pc (run env acts s) = Exited /\
      token (self (world (run env acts s))) = token (self (world s)) /\
      calls (world (run env acts s)) = calls (world s)).
Proof.
  split; [|split; [|split; [|split; [|split]]]].
  - intros m. unfold Close. destruct (closeOnce m); cbn; auto.
  - intros fuel tk err w Hs. rewrite loop_done by exact Hs.
    eexists. split; [reflexivity|]. cbn.
    destruct (readers_find_close _ _ (self w) eq_refl eq_refl) as (Ht & _).
    auto.
  - intros fuel force_ w d e w' Hmu Heq.
    pose proof (refresh_sound fuel force_ w Hmu) as Hpost.
    pose proof (abandoned_refresh_token fuel force_ w d e w' Hmu Heq) as Htok.
    rewrite Heq in Hpost. cbn in Hpost.
    destruct Hpost as (_ & _ & _ & _ & h & Hh & -> & -> & h0 & ev & m & tail & -> & Hev & Hm & Htail).
    split; [reflexivity|]. split; [reflexivity|].
    split; [exists h0, ev, m, tail; auto|]. exact Htok.
  - intros a s Ha. destruct (step_without_refresh a s Ha) as (H1 & _ & H3 & _). auto.
  - intros fuel s d e w' Hmu Heq Hpc.
    pose proof (refresh_sound fuel (match pc s with RunTimed => false | _ => true end)
                  (world s) Hmu) as Hpost.
    rewrite Heq in Hpost. cbn in Hpost.
    destruct Hpost as (_ & _ & _ & _ & h & _ & -> & _).
    unfold step.
    destruct Hpc as [Hpc | [Hpc | Hpc]]; rewrite Hpc in Heq |- *; rewrite Heq; reflexivity.
  - intros acts s Hpc.
    destruct (exited_stays acts s Hpc) as (H1 & H2 & _ & H4 & _). auto.
Qed.

End EngineProperties.

(** * The scenarios of the test suite, run on the model *)

Lemma mock_fails_then_succeeds_3 tok v :
  fails_then_succeeds 3 (mock_failing 3 tok v) tok v (mkMock 4 0 false false tok v).
Proof.
  exists (mkMock 3 0 false false tok v). split; [|reflexivity].
  do 3 (eexists; exists "", 0%Z, mockRetrieverErr;
        split; [reflexivity|]; split; [reflexivity|]).
  reflexivity.
Qed.

(** C8 (amended).  With a refresh buffer of 5 minutes and a retriever
    that always succeeds with validity 3600 seconds, a forced refresh
    returns the delay 3600s - 5m, which is 55 minutes (3300 seconds);
    the cache holds the fetched token and the retriever has been called
    once. *)
Theorem forced_refresh_5m_buffer_3600s_validity env fuel tok cached :
  exists w',
    refresh env fuel true (scenario buffer_5m cached (mock_failing 0 tok validity_3600s)) =
      Returned ((55 * time_Minute)%Z, None) w' /\
    (55 * time_Minute = validity_3600s - buffer_5m)%Z /\
    (55 * time_Minute = 3300 * time_Second)%Z /\
    token (self w') = tok /\
    called (retr w') = 1%Z /\ calls w' = 1.
Proof.
  eexists. split; [reflexivity|]. repeat split.
Qed.

(** C8, as stated, fails: the delay is not 3595 minutes. *)
Lemma forced_refresh_delay_is_not_3595m :
  ~ exists w',
      refresh (running_env None) 1 true
        (scenario buffer_5m "" (mock_failing 0 "newToken123" validity_3600s)) =
      Returned ((3595 * time_Minute)%Z, None) w'.
Proof.
  intros (w' & H). vm_compute in H. discriminate H.
Qed.

Lemma forced_refresh_first_attempt_succeeds_witness :
  let w := scenario buffer_5m "" (mock_failing 0 "newToken123" validity_3600s) in
  mu (self w) = mutex_free /\
  RetrieveToken (retr w) =
    (mkMock 1 0 false false "newToken123" validity_3600s,
     ("newToken123", validity_3600s, None)) /\
  exists w',
    refresh (running_env None) 1 true w =
      Returned (duration_sub validity_3600s buffer_5m, None) w' /\
    token (self w') = "newToken123" /\ mu (self w') = mutex_free /\
    calls w' = 1.
Proof.
  intro w. split; [reflexivity|]. split; [reflexivity|].
  destruct (forced_refresh_first_attempt_succeeds (running_env None) 1 w
              (mkMock 1 0 false false "newToken123" validity_3600s)
              "newToken123" validity_3600s eq_refl eq_refl)
    as (w' & Hr & _ & Ht & Hm & _ & Hc & _).
  exists w'. split; [exact Hr|]. split; [exact Ht|]. split; [exact Hm|]. exact Hc.
Defined.

Lemma forced_refresh_calls_retriever_k_plus_1_witness :
  let w := scenario buffer_5m "" (mock_failing 3 "newToken123" validity_3600s) in
  let r_end := mkMock 4 0 false false "newToken123" validity_3600s in
  fails_then_succeeds 3 (retr w) "newToken123" validity_3600s r_end /\
  never_shutdown (running_env (Some 5)) /\
  mu (self w) = mutex_free /\
  3 < 10 /\
  exists w',
    refresh (running_env (Some 5)) 10 true w =
      Returned (duration_sub validity_3600s buffer_5m, None) w' /\
    calls w' = calls w + (3 + 1) /\
    retr w' = r_end /\ token (self w') = "newToken123" /\
    (int64_range (validity_3600s - buffer_5m) ->
     duration_sub validity_3600s buffer_5m = (validity_3600s - buffer_5m)%Z).
Proof.
  intros w r_end.
  assert (Hf : fails_then_succeeds 3 (retr w) "newToken123" validity_3600s r_end)
    by apply mock_fails_then_succeeds_3.
  assert (Hn : never_shutdown (running_env (Some 5))) by (intro i; reflexivity).
  split; [exact Hf|]. split; [exact Hn|]. split; [reflexivity|]. split; [lia|].
  apply (forced_refresh_calls_retriever_k_plus_1 (running_env (Some 5)) 3 10 w
           "newToken123" validity_3600s r_end Hf Hn eq_refl).
  lia.
Defined.

Lemma empty_token_success_reads_as_invalid_witness :
  let w := scenario buffer_5m "cachedToken123" (mock_failing 1 "" validity_3600s) in
  let r_end := mkMock 2 0 false false "" validity_3600s in
  fails_then_succeeds 1 (retr w) "" validity_3600s r_end /\
  never_shutdown (running_env None) /\
  mu (self w) = mutex_free /\
  1 < 5 /\
  exists w',
    refresh (running_env None) 5 false w =
      Returned (duration_sub validity_3600s (refreshBuffer (self w)), None) w' /\
    token (self w') = "" /\
    GetToken w' = Returned ("", Some ErrInvalidOrExpired) w' /\
    bind GetToken (fun _ => GetToken) w' = Returned ("", Some ErrInvalidOrExpired) w'.
Proof.
  intros w r_end.
  assert (Hf : fails_then_succeeds 1 (retr w) "" validity_3600s r_end).
  { exists (mkMock 1 0 false false "" validity_3600s). split; [|reflexivity].
    eexists; exists "", 0%Z, mockRetrieverErr.
    split; [reflexivity|]. split; reflexivity. }
  assert (Hn : never_shutdown (running_env None)) by (intro i; reflexivity).
  split; [exact Hf|]. split; [exact Hn|]. split; [reflexivity|]. split; [lia|].
  apply (empty_token_success_reads_as_invalid (running_env None) 1 5 false w
           validity_3600s r_end Hf Hn eq_refl).
  lia.
Defined.

Lemma unforced_refresh_stores_token_without_lock_witness :
  let env := running_env (Some 3) in
  let w := scenario buffer_5m "cachedToken123"
             (mock_failing 0 "newToken123" validity_3600s) in
  let r_end := mkMock 1 0 false false "newToken123" validity_3600s in
  fails_then_succeeds 0 (retr w) "newToken123" validity_3600s r_end /\
  (forall i, i <= 0 -> shutdownAt env (selects w + i) = false) /\
  ticks_at_least 1
    (NewTicker env (ExponentialBackOff
                      (duration_sub (refreshBuffer (self w)) time_Second))) /\
  0 < 2 /\
  mu (self w) = mutex_free /\
  exists w' h,
    refresh env 2 false w =
      Returned (duration_sub validity_3600s (refreshBuffer (self w)), None) w' /\
    token (self w') = "newToken123" /\
    history w' =
      history w ++ h ++ [(EvSetToken "newToken123", with_token "newToken123" (self w))] /\
    readers_find (token (self w)) mutex_free h /\
    writer (mu (with_token "newToken123" (self w))) = false /\
    Forall (fun em => fst em <> EvLock /\ writer (mu (snd em)) = false)
           (h ++ [(EvSetToken "newToken123", with_token "newToken123" (self w))]).
Proof.
  intros env w r_end.
  assert (Hf : fails_then_succeeds 0 (retr w) "newToken123" validity_3600s r_end).
  { exists (retr w). split; reflexivity. }
  assert (Hs : forall i, i <= 0 -> shutdownAt env (selects w + i) = false)
    by (intros i _; reflexivity).
  assert (Ht : ticks_at_least 1
                 (NewTicker env (ExponentialBackOff
                    (duration_sub (refreshBuffer (self w)) time_Second))))
    by (vm_compute; lia).
  assert (Hk : 0 < 2) by lia.
  split; [exact Hf|]. split; [exact Hs|]. split; [exact Ht|]. split; [exact Hk|].
  split; [reflexivity|].
  exact (unforced_refresh_stores_token_without_lock env 0 2 w
           "newToken123" validity_3600s r_end Hf Hs Ht Hk eq_refl).
Defined.

Lemma refresh_returns_success_or_ErrShutdown_witness :
  let env := closing_env None 2 in
  let w := scenario buffer_5m "cachedToken123" (mock_permanent "" validity_3600s) in
  mu (self w) = mutex_free /\
  exists res w',
    refresh env 10 false w = Returned res w' /\
    (snd res = None \/ res = (0%Z, Some ErrShutdown)).
Proof.
  intros env w. split; [reflexivity|].
  destruct (refresh_returns_success_or_ErrShutdown env 10 false w eq_refl) as [H1 H2].
  destruct (H2 2) as (res & w' & E); [vm_compute; lia | reflexivity | vm_compute; lia |].
  exists res, w'. split; [exact E|].
  rewrite E in H1. destruct res as [d [e|]].
  - right. destruct H1 as [-> ->]. reflexivity.
  - left. reflexivity.
Defined.

Lemma shutdown_keeps_cached_token_witness :
  let env := closing_env None 0 in
  let w := scenario buffer_5m "cachedToken123" (mock_permanent "" validity_3600s) in
  let s := mkSystem w RunForced (Some (55 * time_Minute)%Z) 1 in
  mu (self w) = mutex_free /\
  pc s = RunForced /\
  exists w',
    refresh env 10 true w = Returned (0%Z, Some ErrShutdown) w' /\
    (exists r' t v e0,
        RetrieveToken (retr w) = (r', (t, v, Some e0)) /\ token (self w') = t) /\
    (exists h0 ev m tail,
        history w' = history w ++ h0 ++ (ev, m) :: tail /\
        is_select_exit ev = true /\
        token (self w') = token m /\
        Forall (fun em => is_unlock (fst em) = true) tail) /\
    step env (RunRefresh 10) s = mkSystem w' Exited (timer s) (wakeups s).
Proof.
  intros env w s. split; [reflexivity|]. split; [reflexivity|].
  destruct (refresh env 10 true w) as [[d [e|]] w'| | |] eqn:E;
    try (vm_compute in E; discriminate E).
  destruct (@shutdown_keeps_cached_token mockRetriever _ env)
    as (_ & _ & H3 & _ & H5 & _).
  destruct (H3 10 true w d e w' eq_refl E) as (-> & -> & Hh & Ht).
  exists w'. split; [reflexivity|]. split; [exact Ht|]. split; [exact Hh|].
  exact (H5 10 s 0%Z ErrShutdown w' eq_refl E (or_intror (or_intror eq_refl))).
Defined.

Lemma unforced_expiry_locks_readers_out_witness :
  let env := running_env (Some 0) in
  let w := scenario buffer_5m "cachedToken123"
             (mock_failing 1 "newToken123" validity_3600s) in
  let r1 := mkMock 1 0 false false "newToken123" validity_3600s in
  let locked := with_mu (mkRWMutex true 0) (self w) in
  let cleared := with_token "" locked in
  exponentialTicks env (duration_sub (refreshBuffer (self w)) time_Second) = Some 0 /\
  fails_with ([] ++ [mockRetrieverErr]) (retr w) r1 /\
  is_ErrShutdown mockRetrieverErr = false /\
  (forall i, i <= 1 -> shutdownAt env (selects w + i) = false) /\
  1 < 5 /\
  mu (self w) = mutex_free /\
  exists d err w' h_exp msg (w_rec : @World mockRetriever) h_rec,
    refresh env 5 false w = Returned (d, err) w' /\
    readers_find (token (self w)) mutex_free h_exp /\
    self w_rec = cleared /\
    history w_rec =
      history w ++ h_exp ++
      [(EvTickerClosed, self w); (EvLock, locked);
       (EvSetToken "", cleared); (EvCrit msg, cleared)] /\
    GetToken w_rec = Blocked /\
    history w' = history w_rec ++ h_rec ++ [(EvUnlock, self w')] /\
    (forall em, In em h_rec -> GetToken (set_self (snd em) w) = Blocked) /\
    mu (self w') = mutex_free.
Proof.
  intros env w r1 locked cleared.
  assert (He : exponentialTicks env
                 (duration_sub (refreshBuffer (self w)) time_Second) = Some 0)
    by reflexivity.
  assert (Hf : fails_with ([] ++ [mockRetrieverErr]) (retr w) r1).
  { eexists; exists "", 0%Z. split; reflexivity. }
  assert (Hs : forall i, i <= 1 -> shutdownAt env (selects w + i) = false)
    by (intros i _; reflexivity).
  assert (Hk : 1 < 5) by lia.
  split; [exact He|]. split; [exact Hf|]. split; [reflexivity|].
  split; [exact Hs|]. split; [exact Hk|]. split; [reflexivity|].
  destruct (unforced_expiry_locks_readers_out env 0 5 [] mockRetrieverErr w r1
              He Hf eq_refl eq_refl Hs Hk eq_refl)
    as (h_exp & msg & w_rec & Hq & Hself & _ & _ & _ & Hhist & _ & Hduring & H).
  destruct (Hduring [] r1 0 eq_refl) as (w_j & h_j & Hj & _ & _ & _ & _ & Hblocked).
  { intros i Hi. cbn in Hi. lia. }
  destruct (refresh env 5 false w) as [[d err] w'| | |] eqn:E; try contradiction.
  - destruct H as (h_rec & Hh & Hb & Hm & _).
    exists d, err, w', h_exp, msg, w_rec, h_rec.
    split; [reflexivity|]. split; [exact Hq|]. split; [exact Hself|].
    split; [exact Hhist|]. split; [|split; [exact Hh|split; [exact Hb|exact Hm]]].
    apply GetToken_blocked. rewrite Hself. reflexivity.
  - vm_compute in E. discriminate E.
Defined.

(** C4, as stated, fails after a recovery: the exponential phase runs
    out and the cache is cleared under the lock, yet the constant phase
    then succeeds, and a reader that gets the lock afterwards finds the
    fresh token and no error. *)
Lemma expiry_then_recovery_serves_fresh_token :
  let w := scenario buffer_5m "cachedToken123"
             (mock_failing 1 "newToken123" validity_3600s) in
  exists d w',
    refresh (running_env (Some 0)) 5 false w = Returned (d, None) w' /\
    In EvTickerClosed (map fst (history w')) /\
    In (EvSetToken "") (map fst (history w')) /\
    GetToken w' = Returned ("newToken123", None) w' /\
    GetToken w' <> Returned ("", Some ErrInvalidOrExpired) w'.
Proof.
  intro w. eexists. eexists.
  split; [vm_compute; reflexivity|].
  split; [vm_compute; tauto|].
  split; [vm_compute; tauto|].
  split; [vm_compute; reflexivity|].
  vm_compute. discriminate.
Qed.


(** C2, as stated, fails when one of the failures carries the
    [ErrShutdown] value: the retriever below fails exactly twice and
    then would succeed, and no shutdown is signalled, yet the forced
    refresh ends on the second failure, the last of its exponential
    phase, and returns [ErrShutdown] after two calls instead of a delay
    after three. *)
Lemma sentinel_failure_ends_forced_refresh_early :
  let boom := errors_New "boom" in
  let script : scriptedRetriever :=
    [("", 0%Z, Some boom); ("", 0%Z, Some ErrShutdown);
     ("newToken123", validity_3600s, None)] in
  let env := running_env (Some 0) in
  let w := @start_world scriptedRetriever
             (refresher_under_test time_Millisecond "") script in
  (exists r_mid r_end,
      fails_with [boom; ErrShutdown] (retr w) r_mid /\
      RetrieveToken r_mid = (r_end, ("newToken123", validity_3600s, None))) /\
  never_shutdown env /\
  mu (self w) = mutex_free /\
  exists w',
    refresh env 10 true w = Returned (0%Z, Some ErrShutdown) w' /\
    calls w' = 2 /\ calls w' <> 2 + 1.
Proof.
  intros boom script env w.
  split.
  { exists [("newToken123", validity_3600s, None)], [].
    split; [|reflexivity].
    do 2 (eexists; exists "", 0%Z; split; [reflexivity|]). reflexivity. }
  split; [intro i; reflexivity|]. split; [reflexivity|].
  eexists. split; [vm_compute; reflexivity|]. split; [reflexivity|].
  cbn. discriminate.
Qed.

(** C7, as stated, fails for a refresh in flight: a valid token is
    cached and [Close] has been called, and the forced refresh that was
    requested before then stores the empty token of its failed fetch
    before its first select takes the done case.  The goroutine exits
    with the token cleared. *)
Lemma forced_refresh_after_Close_clears_valid_token :
  let env := closing_env None 0 in
  let script : scriptedRetriever :=
    [("A", validity_3600s, None); ("", 0%Z, Some (errors_New "boom"))] in
  let s1 := @run scriptedRetriever _ env [RunRefresh 1; CallRefresh; CallClose]
              (boot buffer_5m script) in
  let s2 := @step scriptedRetriever _ env (RunRefresh 5) s1 in
  token (self (world s1)) = "A" /\
  closed (done (self (world s1))) = true /\
  pc s1 = RunForced /\
  pc s2 = Exited /\
  token (self (world s2)) = "" /\
  GetToken (world s2) = Returned ("", Some ErrInvalidOrExpired) (world s2).
Proof.
  intros env script s1 s2.
  do 5 (split; [vm_compute; reflexivity|]). vm_compute. reflexivity.
Qed.

(** C9, as stated, fails when a forced refresh completes between two
    calls: the goroutine is back at its select, the second request is
    delivered as well, and two calls of [Refresh] set off two forced
    refreshes. *)
Lemma two_Refresh_calls_set_off_two_forced_refreshes :
  let env := running_env None in
  let s0 := run env [RunRefresh 1]
              (boot buffer_5m (mock_failing 0 "newToken123" validity_3600s)) in
  let s := run env [CallRefresh; RunRefresh 1; CallRefresh; RunRefresh 1] s0 in
  pc s0 = AtSelect /\ wakeups s0 = 0 /\ calls (world s0) = 1 /\
  wakeups s = 2 /\ calls (world s) = 3 /\
  ~ wakeups s <= wakeups s0 + 1.
Proof.
  intros env s0 s.
  do 5 (split; [vm_compute; reflexivity|]).
  vm_compute. intros H. inversion H as [|? H1]. inversion H1.
Qed.

(** * Further properties of the code *)

Section Coverage.

Context {R : Type} {retriever : TokenRetriever R}.
Variable env : Env.

(** ** [refreshInner] *)

(** X1.  When the exponential ticker stops (its channel is closed after
    the guaranteed tick and [n] more) and every tick met a failure of
    the retriever, [refreshInner] returns the empty token, a zero
    validity and the error of the last failure, whatever that error is;
    the retriever has been called once per tick, and the refresher is
    as it was. *)
Theorem refreshInner_exhausted_returns_last_error
    n fuel maxElapsed errs e_last (w : @World R) r1 :
  exponentialTicks env maxElapsed = Some n ->
  fails_with (errs ++ [e_last]) (retr w) r1 ->
  length errs = n ->
  (forall i, i <= S n -> shutdownAt env (selects w + i) = false) ->
  S n < fuel ->
  exists w',
    refreshInner env fuel (ExponentialBackOff maxElapsed) w =
      Returned ("", 0%Z, Some e_last) w' /\
    self w' = self w /\ retr w' = r1 /\
    calls w' = calls w + S n /\ selects w' = selects w + S (S n).
Proof.
  intros Hn Hk Hlen Hs Hfuel.
  destruct (refreshInner_exhausts_with env n fuel maxElapsed errs e_last w r1
              Hn Hk Hlen Hs Hfuel)
    as (w' & h & Heq & (Hself & Hretr & Hcalls & Hsel & _) & _).
  exists w'. auto.
Qed.

(** X2.  [refreshInner] never writes the cache and never touches the
    mutex or the force channel, under any policy, retriever and
    environment: when it returns, the token, the mutex, the refresh
    buffer and the force channel are as they were, at every step a
    reader found the token and the mutex as they were, and a result
    that carries an error carries the empty token and a zero validity.
    It never blocks and never panics. *)
Theorem refreshInner_leaves_cache_alone fuel b (w : @World R) :
  match refreshInner env fuel b w with
  | Returned (t, v, err) w' =>
      token (self w') = token (self w) /\ mu (self w') = mu (self w) /\
      refreshBuffer (self w') = refreshBuffer (self w) /\
      force (self w') = force (self w) /\
      (exists h, history w' = history w ++ h /\
                 Forall (fun em => token (snd em) = token (self w) /\
                                   mu (snd em) = mu (self w) /\
                                   quiet_event (fst em) = true) h) /\
      (err <> None -> t = "" /\ v = 0%Z)
  | OutOfFuel => True
  | Blocked | Fatal _ => False
  end.
Proof.
  pose proof (refreshInner_sound env fuel b w) as H.
  destruct (refreshInner env fuel b w) as [((t & v) & err) w' | | |];
    cbn in H |- *; auto.
  destruct H as ((Ht & Hm & Hrb & Hf) & _ & h & Hh & Hq & Hx).
  repeat split; auto.
  - exists h. split; [exact Hh|].
    eapply Forall_impl; [|exact Hq]. cbn. intros em (? & ? & ?). auto.
  - destruct err as [e|]; [|congruence]. apply Hx.
  - destruct err as [e|]; [|congruence]. apply Hx.
Qed.

(** ** [refresh] *)

(** X3.  [refresh] cannot tell a failure of the retriever whose error is
    the [ErrShutdown] value from a shutdown: when the last failure of
    the exponential phase carries [ErrShutdown], an unforced [refresh]
    returns [ErrShutdown] though no select took the done case.  The
    refresher is left exactly as it was (the token is not cleared, the
    done channel is not closed), and the goroutine, which only looks at
    the error, exits. *)
Theorem retriever_ErrShutdown_reads_as_shutdown
    n fuel errs (w : @World R) r1 (s : @System R) :
  exponentialTicks env (duration_sub (refreshBuffer (self w)) time_Second) = Some n ->
  fails_with (errs ++ [ErrShutdown]) (retr w) r1 ->
  length errs = n ->
  (forall i, i <= S n -> shutdownAt env (selects w + i) = false) ->
  S n < fuel ->
  pc s = RunTimed -> world s = w ->
  exists w',
    refresh env fuel false w = Returned (0%Z, Some ErrShutdown) w' /\
    self w' = self w /\ retr w' = r1 /\ calls w' = calls w + S n /\
    step env (RunRefresh fuel) s = mkSystem w' Exited (timer s) (wakeups s).
Proof.
  intros Hn Hk Hlen Hs Hfuel Hpc Hw.
  destruct (refreshInner_exhausts_with env n fuel _ errs ErrShutdown (with_defers [] w) r1
              Hn Hk Hlen Hs Hfuel)
    as (w1 & h & Heq & (Hself & Hretr & Hcalls & Hsel & Hdef & Hhist) & _).
  assert (Hr : refresh env fuel false w =
               Returned (0%Z, Some ErrShutdown) (with_defers (defers w) w1)).
  { unfold refresh, call. cbn [negb]. unfold refresh_backoff, bind.
    cbn [with_defers self] in Heq |- *. rewrite Heq. cbn.
    cbn in Hdef. rewrite Hdef. reflexivity. }
  exists (with_defers (defers w) w1). split; [exact Hr|].
  cbn. cbn in Hself, Hcalls. repeat split; auto.
  unfold step. rewrite Hpc, Hw, Hr. reflexivity.
Qed.



(** *** The forced mode holds the lock from start to end *)

Lemma locked_of_readers_find t l h :
  writer l = true -> readers_find t l h -> locked_throughout h.
Proof.
  intros Hl Hq. eapply Forall_impl; [|exact Hq].
  cbn. intros em (_ & _ & ->). exact Hl.
Qed.

Lemma held_inner fuel b (w : @World R) :
  writer (mu (self w)) = true -> held_post w (refreshInner env fuel b w).
Proof.
  intros Hw. pose proof (refreshInner_sound env fuel b w) as H.
  destruct (refreshInner env fuel b w) as [res w' | | |]; cbn in H |- *; auto.
  destruct H as ((_ & Hm & _) & Hd & h & Hh & Hq & _).
  split; [exact Hm|]. split; [exact Hd|].
  exists h. split; [exact Hh|]. exact (locked_of_readers_find _ _ _ Hw Hq).
Qed.

Lemma held_expired fuel tok rb (w : @World R) :
  writer (mu (self w)) = true ->
  held_post w (refresh_expired env fuel true tok rb w).
Proof.
  intros Hw. unfold refresh_expired, bind. cbn [negb]. unfold ret at 1.
  pose proof (held_inner fuel (ConstantBackOff (duration_mul 1%Z time_Minute)) w Hw) as H.
  destruct (refreshInner env fuel _ w) as [((t & v) & [[|msg]|]) w1 | | |];
    cbn in H |- *; auto;
    destruct H as (Hm & Hd & h & Hh & Hl);
    (split; [exact Hm|]); (split; [exact Hd|]);
    exists (h ++ [(EvSetToken t, with_token t (self w1))]);
    (split; [rewrite Hh, <- app_assoc; reflexivity|]);
    apply Forall_app; (split; [exact Hl|]);
    constructor; [|constructor| |constructor]; cbn; rewrite Hm; exact Hw.
Qed.

Lemma held_backoff fuel (w : @World R) :
  writer (mu (self w)) = true ->
  held_post w (refresh_backoff env fuel true w).
Proof.
  intros Hw. unfold refresh_backoff, bind.
  pose proof (held_inner fuel
                (ExponentialBackOff (duration_sub (refreshBuffer (self w)) time_Second))
                w Hw) as H.
  destruct (refreshInner env fuel _ w) as [((t & v) & [e|]) w1 | | |];
    cbn in H |- *; auto.
  - destruct H as (Hm & Hd & h & Hh & Hl).
    destruct (is_ErrShutdown e).
    + cbn. split; [exact Hm|]. split; [exact Hd|]. exists h. auto.
    + assert (Hw1 : writer (mu (self w1)) = true) by (rewrite Hm; exact Hw).
      pose proof (held_expired fuel t (refreshBuffer (self w)) w1 Hw1) as He.
      destruct (refresh_expired env fuel true t (refreshBuffer (self w)) w1)
        as [res w2 | | |]; cbn in He |- *; auto.
      destruct He as (Hm2 & Hd2 & h2 & Hh2 & Hl2).
      split; [congruence|]. split; [congruence|].
      exists (h ++ h2). split; [rewrite Hh2, Hh, <- app_assoc; reflexivity|].
      apply Forall_app. auto.
  - destruct H as (Hm & Hd & h & Hh & Hl).
    split; [exact Hm|]. split; [exact Hd|].
    exists (h ++ [(EvSetToken t, with_token t (self w1))]).
    split; [rewrite Hh, <- app_assoc; reflexivity|].
    apply Forall_app. split; [exact Hl|].
    constructor; [|constructor]. cbn. rewrite Hm. exact Hw.
Qed.

(** X4.  A forced [refresh] holds the exclusive lock for the whole
    call, whatever the retriever and the environment do: the first
    thing it does is take the lock, the last is to release it, and at
    every step in between the writer is in, so that a [GetToken] issued
    then does not return before the call is over. *)
Theorem forced_refresh_holds_lock_throughout fuel (w : @World R) :
  mu (self w) = mutex_free ->
  match refresh env fuel true w with
  | Returned _ w' =>
      exists h,
        history w' =
          history w ++
          (EvLock, with_mu (mkRWMutex true 0) (self w)) :: h ++ [(EvUnlock, self w')] /\
        locked_throughout ((EvLock, with_mu (mkRWMutex true 0) (self w)) :: h) /\
        (forall em,
            In em ((EvLock, with_mu (mkRWMutex true 0) (self w)) :: h) ->
            GetToken (set_self (snd em) w) = Blocked) /\
        mu (self w') = mutex_free
  | OutOfFuel => True
  | Blocked | Fatal _ => False
  end.
Proof.
  intros Hmu.
  assert (Hblock : forall h : list (event * tokenRefresher),
             locked_throughout h ->
             forall em, In em h -> GetToken (set_self (snd em) w) = Blocked).
  { intros h Hl em Hin. apply GetToken_blocked. cbn.
    exact (proj1 (Forall_forall _ _) Hl em Hin). }
  unfold refresh, call.
  unfold bind at 1. unfold Lock. cbn [with_defers self]. rewrite Hmu. cbn.
  unfold bind at 1. unfold retriever_RetrieveToken. cbn.
  destruct (RetrieveToken (retr w)) as (r' & (t & v) & [e|]) eqn:Hr; cbn.
  - match goal with
    | |- context [refresh_backoff env fuel true ?w0] =>
        pose proof (held_backoff fuel w0 eq_refl) as Hb;
        destruct (refresh_backoff env fuel true w0) as [res w1 | | |]
    end; cbn in Hb |- *; auto.
    destruct Hb as (Hm & Hd & h & Hh & Hl).
    rewrite Hd. cbn. unfold bind, Unlock. cbn. rewrite Hm. cbn.
    match type of Hh with
    | _ = ((((_ ++ [?a]) ++ [?b]) ++ [?c]) ++ [?d]) ++ _ =>
        assert (Hall : locked_throughout (a :: b :: c :: d :: h))
          by (repeat (constructor; [reflexivity|]); exact Hl);
        exists (b :: c :: d :: h)
    end.
    split; [rewrite Hh, <- !app_assoc; reflexivity|].
    split; [exact Hall|]. split; [exact (Hblock _ Hall)|]. reflexivity.
  - match goal with
    | |- exists _, (((_ ++ [?a]) ++ [?b]) ++ [?c]) ++ _ = _ /\ _ =>
        assert (Hall : locked_throughout [a; b; c])
          by (repeat (constructor; [reflexivity|]); constructor);
        exists [b; c]
    end.
    split; [rewrite <- !app_assoc; reflexivity|].
    split; [exact Hall|]. split; [exact (Hblock _ Hall)|]. reflexivity.
Qed.


(** *** Shutdown during a refresh *)

(** X5.  A forced [refresh] stores what its first fetch returned before
    it looks at the error: when that fetch fails with the token [t] (the
    empty string, for a retriever that returns nothing on failure) and
    the first select of the backoff takes the done case, the call
    returns [ErrShutdown] with [t] in the cache in place of the token
    that was there, the lock released and the retriever called once. *)
Theorem forced_refresh_failed_fetch_overwrites_token
    fuel (w : @World R) r' t v e :
  mu (self w) = mutex_free ->
  RetrieveToken (retr w) = (r', (t, v, Some e)) ->
  shutdownAt env (selects w) = true ->
  exists w',
    refresh env (S fuel) true w = Returned (0%Z, Some ErrShutdown) w' /\
    token (self w') = t /\ mu (self w') = mutex_free /\
    retr w' = r' /\ calls w' = S (calls w) /\
    GetToken w' =
      Returned (t, if (t =? "")%string then Some ErrInvalidOrExpired else None) w'.
Proof.
  intros Hmu Hr Hs.
  unfold refresh, call.
  unfold bind at 1. unfold Lock. cbn [with_defers self]. rewrite Hmu. cbn.
  unfold bind at 1. unfold retriever_RetrieveToken. cbn. rewrite Hr. cbn.
  unfold refresh_backoff, refreshInner, bind.
  rewrite loop_done by exact Hs.
  match goal with
  | |- context [fst (Close ?m)] =>
      destruct (readers_find_close t (mkRWMutex true 0) m eq_refl eq_refl)
        as (Ht & Hm);
      generalize dependent (fst (Close m))
  end.
  intros m1 Ht Hm. cbn. unfold bind, Unlock. cbn. rewrite Hm. cbn.
  eexists. split; [reflexivity|]. cbn -[GetToken].
  split; [exact Ht|]. split; [reflexivity|]. split; [reflexivity|].
  split; [reflexivity|].
  rewrite GetToken_returns by reflexivity. cbn. rewrite Ht. reflexivity.
Qed.

(** X6.  An unforced [refresh] that is abandoned during its exponential
    phase, after any number of failed fetches with whatever errors,
    returns [ErrShutdown] without ever having taken the lock: readers
    found the old token and the mutex untouched at every step, and they
    find them so afterwards. *)
Theorem unforced_refresh_abandoned_keeps_stale_token
    fuel errs (w : @World R) r1 :
  fails_with errs (retr w) r1 ->
  (forall i, i < length errs -> shutdownAt env (selects w + i) = false) ->
  shutdownAt env (selects w + length errs) = true ->
  ticks_at_least (length errs)
    (NewTicker env (ExponentialBackOff
                      (duration_sub (refreshBuffer (self w)) time_Second))) ->
  length errs < fuel ->
  exists w' h,
    refresh env fuel false w = Returned (0%Z, Some ErrShutdown) w' /\
    token (self w') = token (self w) /\ mu (self w') = mu (self w) /\
    retr w' = r1 /\ calls w' = calls w + length errs /\
    history w' = history w ++ h /\
    readers_find (token (self w)) (mu (self w)) h.
Proof.
  intros Hk Hs Hdone Htk Hfuel.
  unfold refresh, call. cbn [negb]. unfold refresh_backoff, refreshInner, bind.
  cbn [with_defers self].
  replace fuel with (length errs + S (fuel - S (length errs))) by lia.
  destruct (loop_fails_with env errs (S (fuel - S (length errs)))
              (NewTicker env (ExponentialBackOff
                 (duration_sub (refreshBuffer (self w)) time_Second)))
              None (with_defers [] w) r1 Hk Hs Htk)
    as (w1 & h & Heq & (Hself & Hretr & Hcalls & Hsel & Hdef & Hhist) & Hq).
  rewrite Heq. cbn in Hself, Hcalls, Hsel, Hdef, Hhist, Hq.
  rewrite loop_done by (rewrite Hsel; exact Hdone).
  cbn. rewrite Hdef. cbn.
  eexists. exists (h ++ [(EvDone, fst (Close (self w1)))]).
  split; [reflexivity|]. cbn.
  destruct (readers_find_close (token (self w)) (mu (self w)) (self w1))
    as (Ht & Hm); [now rewrite Hself | now rewrite Hself |].
  split; [exact Ht|]. split; [exact Hm|]. split; [exact Hretr|].
  split; [exact Hcalls|].
  split; [rewrite Hhist, <- app_assoc; reflexivity|].
  apply Forall_app. split; [exact Hq|].
  constructor; [|constructor]. cbn. auto.
Qed.


(** *** What [refresh] changes of the refresher *)

Lemma loop_keeps P fuel :
  engine_stable P ->
  forall tk err (w : @World R),
    P (self w) -> keeps P (refreshInner_loop env fuel tk err w).
Proof.
  intros (Hmu & Htok & Hclose).
  induction fuel as [|fuel IH]; intros tk err w HP; [exact I|].
  cbn [refreshInner_loop]. unfold bind, select_ticker_done.
  destruct (shutdownAt env (selects w)); [cbn; apply Hclose, HP|].
  destruct tk as [[|n]|]; cbn; [exact HP | |];
    unfold retriever_RetrieveToken; cbn;
    destruct (RetrieveToken (retr w)) as (r' & (t & v) & [e|]); cbn;
    try exact HP; apply IH; exact HP.
Qed.

Lemma expired_keeps P fuel force_ tok rb (w : @World R) :
  engine_stable P -> P (self w) ->
  keeps P (refresh_expired env fuel force_ tok rb w).
Proof.
  intros HP Hw. pose proof HP as (Hmu & Htok & Hclose).
  unfold refresh_expired, bind, refreshInner.
  destruct force_; cbn [negb].
  - unfold ret at 1.
    pose proof (loop_keeps P fuel HP (NewTicker env (ConstantBackOff
                  (duration_mul 1%Z time_Minute))) None w Hw) as H.
    destruct (refreshInner_loop env fuel _ None w)
      as [((t & v) & [[|msg]|]) w1 | | |]; cbn in H |- *; auto.
  - unfold Lock. destruct (writer (mu (self w)) || _); [exact I|]. cbn.
    match goal with
    | |- context [refreshInner_loop env fuel ?tk None ?w0] =>
        pose proof (loop_keeps P fuel HP tk None w0) as H;
        destruct (refreshInner_loop env fuel tk None w0)
          as [((t & v) & [[|msg]|]) w1 | | |]
    end; cbn in H |- *; auto; try (apply Htok); apply H; apply Htok, Hmu, Hw.
Qed.

Lemma backoff_keeps P fuel force_ (w : @World R) :
  engine_stable P -> P (self w) ->
  keeps P (refresh_backoff env fuel force_ w).
Proof.
  intros HP Hw. pose proof HP as (Hmu & Htok & Hclose).
  unfold refresh_backoff, bind, refreshInner.
  match goal with
  | |- context [refreshInner_loop env fuel ?tk None w] =>
      pose proof (loop_keeps P fuel HP tk None w Hw) as H;
      destruct (refreshInner_loop env fuel tk None w)
        as [((t & v) & [e|]) w1 | | |]
  end; cbn in H |- *; auto.
  destruct (is_ErrShutdown e); [exact H|].
  apply expired_keeps; assumption.
Qed.

Lemma run_defers_keeps P ds :
  engine_stable P ->
  forall w : @World R, P (self w) -> keeps P (run_defers ds w).
Proof.
  intros (Hmu & _). induction ds as [|d ds IH]; intros w Hw; [exact Hw|].
  cbn [run_defers]. unfold bind.
  destruct d; cbn [run_deferred].
  - unfold Unlock. destruct (writer (mu (self w))); [|exact I].
    apply IH. cbn. apply Hmu, Hw.
  - unfold RUnlock. destruct (readers (mu (self w))); [exact I|].
    apply IH. cbn. apply Hmu, Hw.
Qed.

Lemma call_keeps {A : Type} P (body : @M R A) (w : @World R) :
  engine_stable P ->
  keeps P (body (with_defers [] w)) ->
  keeps P (call body w).
Proof.
  intros HP Hb. unfold call.
  destruct (body (with_defers [] w)) as [a w1 | | |]; cbn in Hb |- *; auto.
  pose proof (run_defers_keeps P (defers w1) HP (with_defers [] w1) Hb) as Hd.
  destruct (run_defers (defers w1) (with_defers [] w1)) as [u w2 | | |];
    cbn in Hd |- *; auto.
Qed.

Lemma refresh_keeps P fuel force_ (w : @World R) :
  engine_stable P -> P (self w) -> keeps P (refresh env fuel force_ w).
Proof.
  intros HP Hw. pose proof HP as (Hmu & Htok & Hclose).
  unfold refresh. apply call_keeps; [exact HP|].
  destruct force_.
  - unfold bind at 1. unfold Lock. cbn [with_defers self].
    destruct (writer (mu (self w)) || _); [exact I|]. cbn.
    unfold bind at 1. unfold retriever_RetrieveToken. cbn.
    destruct (RetrieveToken (retr w)) as (r' & (t & v) & [e|]); cbn.
    + apply backoff_keeps; [exact HP|]. cbn. apply Htok, Hmu, Hw.
    + apply Htok, Hmu, Hw.
  - apply backoff_keeps; [exact HP|]. exact Hw.
Qed.

Lemma stable_refreshBuffer rb : engine_stable (fun m => refreshBuffer m = rb).
Proof.
  repeat split; auto. intros m <-. unfold Close. destruct (closeOnce m); reflexivity.
Qed.

Lemma stable_force c : engine_stable (fun m => force m = c).
Proof.
  repeat split; auto. intros m <-. unfold Close. destruct (closeOnce m); reflexivity.
Qed.

Lemma stable_done_closed : engine_stable (fun m => closed (done m) = true).
Proof.
  repeat split; auto. intros m H. unfold Close. destruct (closeOnce m); auto.
Qed.

Lemma stable_closed_once : engine_stable closed_once.
Proof.
  unfold closed_once. repeat split; auto.
  intros m H. unfold Close. destruct (closeOnce m) eqn:E; cbn; auto.
Qed.

(** X7.  Whatever path it takes, [refresh] returns with the mutex
    released and its caller's deferred calls in place; it never writes
    the refresh buffer or the force channel, and it never reopens the
    done channel: all it changes of the refresher is the token, the
    mutex while it runs, and [done] when a select takes the done
    case. *)
Theorem refresh_releases_lock_and_keeps_channels fuel force_ (w : @World R) :
  mu (self w) = mutex_free ->
  match refresh env fuel force_ w with
  | Returned _ w' =>
      mu (self w') = mutex_free /\
      defers w' = defers w /\
      refreshBuffer (self w') = refreshBuffer (self w) /\
      force (self w') = force (self w) /\
      (closed (done (self w)) = true -> closed (done (self w')) = true) /\
      (closed_once (self w) -> closed_once (self w'))
  | OutOfFuel => True
  | Blocked | Fatal _ => False
  end.
Proof.
  intros Hmu.
  pose proof (refresh_sound env fuel force_ w Hmu) as Hs.
  pose proof (refresh_keeps _ fuel force_ w stable_done_closed) as Hd.
  pose proof (refresh_keeps _ fuel force_ w stable_closed_once) as Ho.
  destruct (refresh env fuel force_ w) as [res w' | | |]; cbn in Hs, Hd, Ho |- *; auto.
  destruct Hs as (Hm & Hrb & Hf & Hdef & _).
  repeat split; auto.
Qed.

(** X8.  When the exponential phase of an unforced [refresh] runs out
    and the service is shut down during the constant phase, the call
    returns [ErrShutdown] and the token stays cleared: the lock is
    released, and from then on [GetToken] returns the "invalid or
    expired" failure. *)
Theorem unforced_expiry_then_shutdown_leaves_token_empty
    n fuel errs e_last errs2 (w : @World R) r_mid r1 :
  exponentialTicks env (duration_sub (refreshBuffer (self w)) time_Second) = Some n ->
  fails_with (errs ++ [e_last]) (retr w) r_mid ->
  length errs = n ->
  is_ErrShutdown e_last = false ->
  fails_with errs2 r_mid r1 ->
  (forall i, i < S (S n) + length errs2 -> shutdownAt env (selects w + i) = false) ->
  shutdownAt env (selects w + S (S n) + length errs2) = true ->
  S n < fuel -> length errs2 < fuel ->
  mu (self w) = mutex_free ->
  exists w',
    refresh env fuel false w = Returned (0%Z, Some ErrShutdown) w' /\
    token (self w') = "" /\ mu (self w') = mutex_free /\
    retr w' = r1 /\ calls w' = calls w + S n + length errs2 /\
    GetToken w' = Returned ("", Some ErrInvalidOrExpired) w'.
Proof.
  intros Hn Hk Hlen He Hk2 Hs Hdone Hfuel Hfuel2 Hmu.
  destruct (refreshInner_exhausts_with env n fuel _ errs e_last (with_defers [] w) r_mid
              Hn Hk Hlen) as (w1 & h & Heq & Hadv & _).
  { intros i Hi. apply Hs. lia. }
  { exact Hfuel. }
  destruct Hadv as (Hself & Hretr & Hcalls & Hsel & Hdef & Hhist).
  cbn in Hself, Hcalls, Hsel, Hdef.
  unfold refresh, call. cbn [negb]. unfold refresh_backoff, bind.
  cbn [with_defers self] in Heq |- *. rewrite Heq. rewrite He.
  unfold refresh_expired, bind. cbn [negb].
  unfold Lock. rewrite Hself, Hmu. cbn. unfold refreshInner. cbn [NewTicker].
  match goal with
  | |- context [refreshInner_loop env fuel None None ?w0] =>
      replace fuel with (length errs2 + S (fuel - S (length errs2))) by lia;
      destruct (loop_fails_with env errs2 (S (fuel - S (length errs2))) None None w0 r1)
        as (w2 & h2 & Heq2 & Hadv2 & _)
  end.
  { cbn. rewrite Hretr. exact Hk2. }
  { intros i Hi. cbn. rewrite Hsel.
    replace (selects w + S (S n) + i) with (selects w + (S (S n) + i)) by lia.
    apply Hs. lia. }
  { exact I. }
  destruct Hadv2 as (Hself2 & Hretr2 & Hcalls2 & Hsel2 & Hdef2 & Hhist2).
  cbn in Hself2, Hcalls2, Hsel2, Hdef2. rewrite Hdef in Hdef2.
  rewrite Heq2. cbn [ticks_after].
  rewrite loop_done by (rewrite Hsel2, Hsel; exact Hdone).
  cbn. rewrite Hdef2. cbn. unfold bind, Unlock. cbn.
  destruct (readers_find_close "" (mkRWMutex true 0) (self w2)) as (Ht & Hm);
    [rewrite Hself2; reflexivity | rewrite Hself2; reflexivity |].
  generalize dependent (fst (Close (self w2))). intros m1 Ht Hm.
  rewrite Hm. cbn.
  eexists. split; [reflexivity|]. cbn -[GetToken].
  split; [exact Ht|]. split; [reflexivity|]. split; [exact Hretr2|].
  split; [rewrite Hcalls2, Hcalls; lia|].
  rewrite GetToken_returns by reflexivity. cbn. rewrite Ht. reflexivity.
Qed.


(** ** The scheduler goroutine *)

Lemma step_keeps P a (s : @System R) :
  engine_stable P ->
  (forall m c, P m -> P (with_force c m)) ->
  P (self (world s)) -> P (self (world (step env a s))).
Proof.
  intros HP Hforce Hs. pose proof HP as (Hmu & Htok & Hclose).
  destruct s as [w p tm wk]. cbn in Hs.
  assert (Hafter : forall fuel force_,
             P (self (world (after_refresh (mkSystem w p tm wk)
                                           (refresh env fuel force_ w))))).
  { intros fuel force_.
    pose proof (refresh_keeps P fuel force_ w HP Hs) as Hk.
    destruct (refresh env fuel force_ w) as [(d & [[|msg]|]) w' | | |];
      cbn in Hk |- *; auto. }
  destruct a; cbn.
  - unfold Refresh.
    destruct (select_send_default (force (self w))) as (c & [| |]); cbn; auto;
      destruct p; cbn; auto.
  - apply Hclose, Hs.
  - destruct p; cbn; auto.
  - destruct p; cbn; auto. destruct (closed (done (self w))); cbn; auto.
  - destruct p; cbn; auto.
Qed.

Lemma run_keeps P acts :
  engine_stable P ->
  (forall m c, P m -> P (with_force c m)) ->
  forall s : @System R, P (self (world s)) -> P (self (world (run env acts s))).
Proof.
  intros HP Hforce. induction acts as [|a acts IH]; intros s Hs; [exact Hs|].
  cbn. apply IH, step_keeps; assumption.
Qed.

(** X9.  In every state the system reaches from [NewTokenRefresher],
    a refresh that the goroutine runs ends in one of three ways: it has
    not returned yet, and nothing has changed; it returned
    [ErrShutdown], and the goroutine has exited without touching the
    timer; or it succeeded, and the goroutine is back at its select with
    the timer armed with [v - refreshBuffer], where [v] is the validity
    of a successful fetch of this refresh whose token is now the cached
    one.  The timer is never armed with the delay of a failed
    refresh. *)
Theorem refresher_arms_timer_only_after_success rb (r : R) acts fuel :
  let s := run env acts (boot rb r) in
  let s' := step env (RunRefresh fuel) s in
  s' = s \/
  (pc s' = Exited /\ timer s' = timer s /\ wakeups s' = wakeups s) \/
  (pc s' = AtSelect /\
   exists t v h0 m tail,
     timer s' = Some (duration_sub v rb) /\
     token (self (world s')) = t /\
     history (world s') =
       history (world s) ++ h0 ++ (EvRetrieve t v None, m) :: tail).
Proof.
  intros s s'.
  assert (Hinv : system_inv s) by (apply run_inv, boot_inv).
  assert (Hrb : refreshBuffer (self (world s)) = rb).
  { apply (run_keeps (fun m => refreshBuffer m = rb));
      [apply stable_refreshBuffer | auto | reflexivity]. }
  destruct Hinv as (Hmu & _).
  assert (Hafter : forall force_,
             let s1 := after_refresh s (refresh env fuel force_ (world s)) in
             s1 = s \/
             (pc s1 = Exited /\ timer s1 = timer s /\ wakeups s1 = wakeups s) \/
             (pc s1 = AtSelect /\
              exists t v h0 m tail,
                timer s1 = Some (duration_sub v rb) /\
                token (self (world s1)) = t /\
                history (world s1) =
                  history (world s) ++ h0 ++ (EvRetrieve t v None, m) :: tail)).
  { intros force_.
    pose proof (refresh_sound env fuel force_ (world s) Hmu) as Hs.
    destruct (refresh env fuel force_ (world s)) as [(d & [e|]) w' | | |];
      cbn in Hs |- *; auto; try contradiction.
    - destruct Hs as (_ & _ & _ & _ & h & _ & (-> & _)). right. left. auto.
    - destruct Hs as (_ & _ & _ & _ & h & Hh & (t & v & h0 & m & tail & -> & -> & Ht)).
      right. right. split; [reflexivity|].
      exists t, v, h0, m, tail. cbn. rewrite Hrb. auto. }
  subst s'. unfold step. destruct (pc s); auto; apply Hafter.
Qed.

(** X10.  Once the goroutine has returned, nothing refreshes the token
    any more: whatever calls of [Refresh] and [Close] and whatever
    timer events follow, the goroutine stays gone, the retriever is not
    called again, and the cached token stays what it was. *)
Theorem exited_goroutine_never_refreshes acts : forall s : @System R,
  pc s = Exited ->
  pc (run env acts s) = Exited /\
  token (self (world (run env acts s))) = token (self (world s)) /\
  mu (self (world (run env acts s))) = mu (self (world s)) /\
  calls (world (run env acts s)) = calls (world s) /\
  retr (world (run env acts s)) = retr (world s) /\
  timer (run env acts s) = timer s /\
  wakeups (run env acts s) = wakeups s.
Proof.
  induction acts as [|a acts IH]; intros s Hpc; [repeat split; auto|].
  cbn [run].
  assert (Hstep : pc (step env a s) = Exited /\
                  token (self (world (step env a s))) = token (self (world s)) /\
                  mu (self (world (step env a s))) = mu (self (world s)) /\
                  calls (world (step env a s)) = calls (world s) /\
                  retr (world (step env a s)) = retr (world s) /\
                  timer (step env a s) = timer s /\
                  wakeups (step env a s) = wakeups s).
  { destruct s as [w p tm wk]. cbn in Hpc. subst p.
    destruct a; cbn; try (repeat split; reflexivity).
    - unfold Refresh.
      destruct (select_send_default (force (self w))) as (c & [| |]);
        cbn; repeat split; reflexivity.
    - unfold Close. destruct (closeOnce (self w)); repeat split; reflexivity. }
  destruct Hstep as (H1 & H2 & H3 & H4 & H5 & H6 & H7).
  destruct (IH _ H1) as (I1 & I2 & I3 & I4 & I5 & I6 & I7).
  repeat split; congruence.
Qed.

(** X11.  In every state the system reaches from [NewTokenRefresher]
    with the goroutine parked at its select, a call of [Close] lets the
    select take the done case, and the goroutine exits; neither step
    touches the cached token, the mutex or the retriever. *)
Theorem Close_stops_parked_goroutine rb (r : R) acts :
  let s := run env acts (boot rb r) in
  pc s = AtSelect ->
  let s' := run env [CallClose; TakeDone] s in
  pc s' = Exited /\
  closed (done (self (world s'))) = true /\
  token (self (world s')) = token (self (world s)) /\
  mu (self (world s')) = mu (self (world s)) /\
  calls (world s') = calls (world s).
Proof.
  intros s Hpc s'.
  assert (Honce : closed_once (self (world s))).
  { apply (run_keeps closed_once); [apply stable_closed_once | auto |].
    unfold closed_once. cbn. discriminate. }
  subst s'. destruct s as [w p tm wk]. cbn in Hpc, Honce. subst p.
  unfold closed_once in Honce.
  cbn. unfold Close.
  destruct (closeOnce (self w)) eqn:E; cbn.
  - rewrite (Honce eq_refl). cbn. rewrite (Honce eq_refl). repeat split; reflexivity.
  - repeat split; reflexivity.
Qed.


(** ** A retriever that keeps failing with errors of its own *)

Lemma keeps_failing_det k : forall (r a b : R),
  keeps_failing k r a -> keeps_failing k r b -> a = b.
Proof.
  induction k as [|k IH]; intros r a b Ha Hb; [cbn in *; congruence|].
  destruct Ha as (ra & ta & va & ea & Hra & _ & Ha).
  destruct Hb as (rb & tb & vb & eb & Hrb & _ & Hb).
  rewrite Hra in Hrb. injection Hrb as <- _ _ _. exact (IH _ _ _ Ha Hb).
Qed.

Lemma always_fails_after k (r r1 : R) :
  always_fails r -> keeps_failing k r r1 -> always_fails r1.
Proof.
  intros Hall Hk j. destruct (Hall (k + j)) as (r2 & H2).
  destruct (keeps_failing_split k j r r2 H2) as (r1' & Hk' & Hj).
  rewrite (keeps_failing_det k r r1 r1' Hk Hk'). exists r2. exact Hj.
Qed.

(** The loop spends all its fuel on a retriever that keeps failing,
    as long as the ticker ticks. *)
Lemma loop_spins fuel tk err (w : @World R) :
  always_fails (retr w) -> never_shutdown env -> ticks_at_least fuel tk ->
  refreshInner_loop env fuel tk err w = OutOfFuel.
Proof.
  intros Hall Hns Htk. destruct (Hall fuel) as (r1 & Hk).
  destruct (loop_keeps_failing env fuel 0 tk err w r1 Hk)
    as (w1 & h & err1 & Heq & _); [intros; apply Hns | exact Htk |].
  rewrite Nat.add_0_r in Heq. rewrite Heq. reflexivity.
Qed.

Lemma expired_spins fuel force_ tok rb (w : @World R) :
  always_fails (retr w) -> never_shutdown env ->
  (force_ = false -> mu (self w) = mutex_free) ->
  refresh_expired env fuel force_ tok rb w = OutOfFuel.
Proof.
  intros Hall Hns Hmu. unfold refresh_expired, bind, refreshInner.
  destruct force_; cbn [negb NewTicker].
  - unfold ret at 1. rewrite loop_spins; auto. exact I.
  - unfold Lock. rewrite (Hmu eq_refl). cbn.
    rewrite loop_spins; auto. exact I.
Qed.

Lemma backoff_spins fuel force_ (w : @World R) :
  always_fails (retr w) -> never_shutdown env ->
  (force_ = false -> mu (self w) = mutex_free) ->
  refresh_backoff env fuel force_ w = OutOfFuel.
Proof.
  intros Hall Hns Hmu. unfold refresh_backoff, bind, refreshInner.
  destruct (exponentialTicks env (duration_sub (refreshBuffer (self w)) time_Second))
    as [n|] eqn:Hticks; cbn [NewTicker]; rewrite Hticks.
  - destruct (le_lt_dec fuel (S n)) as [Hle|Hlt].
    + rewrite loop_spins; auto.
    + destruct (Hall (S n)) as (r1 & Hk).
      destruct (loop_exhausts env (S n) fuel None w r1 Hk)
        as (w1 & h & err1 & Heq & Hadv & _ & e & -> & He);
        [intros; apply Hns | exact Hlt |].
      destruct Hadv as (Hself & Hretr & _).
      rewrite Heq, He.
      apply expired_spins; auto.
      * rewrite Hretr. exact (always_fails_after _ _ _ Hall Hk).
      * rewrite Hself. exact Hmu.
  - rewrite loop_spins; auto. exact I.
Qed.

(** X12.  Nothing but a success of the retriever, a shutdown, or a
    failure that carries the [ErrShutdown] value ends a [refresh]:
    against a retriever every call of which fails with an error other
    than [ErrShutdown], and with no shutdown, the call is still
    retrying whatever number of steps it is given, in either mode.  (In
    the forced mode it holds the exclusive lock all along.) *)
Theorem refresh_never_returns_while_retriever_fails fuel force_ (w : @World R) :
  always_fails (retr w) ->
  never_shutdown env ->
  mu (self w) = mutex_free ->
  refresh env fuel force_ w = OutOfFuel.
Proof.
  intros Hall Hns Hmu. unfold refresh, call. destruct force_.
  - unfold bind at 1. unfold Lock. cbn [with_defers self]. rewrite Hmu. cbn.
    unfold bind at 1. unfold retriever_RetrieveToken. cbn.
    destruct (Hall 1) as (r1 & ra & t & v & e & Hr & He & Hk). cbn in Hk. subst r1.
    rewrite Hr. cbn.
    rewrite backoff_spins; auto; [|discriminate].
    cbn. apply (always_fails_after 1 (retr w)); [exact Hall|].
    exists ra, t, v, e. cbn. auto.
  - rewrite backoff_spins; auto.
Qed.


End Coverage.


(** ** [Close] *)

(** X13.  [Close] can be called any number of times: the first call
    closes the done channel, every later call changes nothing, and each
    returns nil.  No call touches the token, the mutex, the force
    channel or the refresh buffer. *)
Theorem Close_is_idempotent (m : tokenRefresher) n :
  let m1 := fst (Close m) in
  Nat.iter n (fun x => fst (Close x)) m1 = m1 /\
  Close m1 = (m1, None) /\
  closeOnce m1 = true /\
  (closed_once m -> closed (done m1) = true) /\
  token m1 = token m /\ mu m1 = mu m /\
  force m1 = force m /\ refreshBuffer m1 = refreshBuffer m.
Proof.
  intros m1.
  assert (Hone : closeOnce m1 = true)
    by (subst m1; unfold Close; destruct (closeOnce m) eqn:E; auto).
  assert (Hagain : Close m1 = (m1, None)) by (unfold Close at 1; now rewrite Hone).
  split.
  { induction n as [|n IH]; [reflexivity|]. rewrite Nat.iter_succ, IH, Hagain. reflexivity. }
  split; [exact Hagain|]. split; [exact Hone|].
  subst m1. unfold closed_once, Close.
  destruct (closeOnce m); cbn; repeat split; auto.
Qed.

(** ** The retriever of the test suite *)

Lemma mock_keeps_failing k : forall c inc tok v,
  (0 <= c)%Z -> (c + Z.of_nat k < 2 ^ 63)%Z ->
  keeps_failing k (mkMock c (Z.of_nat k) false inc tok v)
                  (mkMock (c + Z.of_nat k) 0 false inc tok v).
Proof.
  induction k as [|k IH]; intros c inc tok v Hc Hk.
  - cbn. f_equal. lia.
  - exists (mkMock (c + 1) (Z.of_nat k) false inc tok v), "", 0%Z, mockRetrieverErr.
    split; [|split; [reflexivity|]].
    + unfold RetrieveToken, mockRetriever_RetrieveToken.
      cbn [called numFails permanentFail incrementToken mock_token mock_expiresIn].
      replace (0 <? Z.of_nat (S k))%Z with true by (symmetry; apply Z.ltb_lt; lia).
      cbn [orb].
      rewrite (wrap64_exact (c + 1)) by (unfold int64_range; lia).
      rewrite (wrap64_exact (Z.of_nat (S k) - 1)) by (unfold int64_range; lia).
      replace (Z.of_nat (S k) - 1)%Z with (Z.of_nat k) by lia. reflexivity.
    + replace (c + Z.of_nat (S k))%Z with (c + 1 + Z.of_nat k)%Z by lia.
      apply IH; lia.
Qed.

Lemma mock_fails_then_succeeds k c inc tok v :
  (0 <= c)%Z -> (c + Z.of_nat k + 1 < 2 ^ 63)%Z ->
  fails_then_succeeds k (mkMock c (Z.of_nat k) false inc tok v)
    (if inc then (tok ++ sprintf_02d (c + Z.of_nat k + 1))%string else tok) v
    (mkMock (c + Z.of_nat k + 1) 0 false inc tok v).
Proof.
  intros Hc Hk. exists (mkMock (c + Z.of_nat k) 0 false inc tok v).
  split; [apply mock_keeps_failing; lia|].
  unfold RetrieveToken, mockRetriever_RetrieveToken.
  cbn [called numFails permanentFail incrementToken mock_token mock_expiresIn].
  cbn [Z.ltb Z.compare orb].
  rewrite (wrap64_exact (c + Z.of_nat k + 1)) by (unfold int64_range; lia).
  reflexivity.
Qed.

Lemma mock_permanent_keeps_failing k : forall r : mockRetriever,
  permanentFail r = true ->
  exists r_end, keeps_failing k r r_end /\ permanentFail r_end = true.
Proof.
  induction k as [|k IH]; intros r Hp; [exists r; split; [reflexivity | exact Hp]|].
  destruct (IH (mkMock (wrap64 (called r + 1)) (wrap64 (numFails r - 1))
                       (permanentFail r) (incrementToken r) (mock_token r)
                       (mock_expiresIn r)) Hp) as (r_end & Hk & He).
  exists r_end. split; [|exact He].
  eexists; exists "", 0%Z, mockRetrieverErr.
  split; [|split; [reflexivity | exact Hk]].
  unfold RetrieveToken, mockRetriever_RetrieveToken. rewrite Hp, orb_true_r.
  reflexivity.
Qed.

(** X14.  The mock retriever with [numFails = k] fails exactly [k]
    times and then succeeds, with its token (followed by the two-digit
    call count when [incrementToken] is set) and its validity; [called]
    counts every call, and [numFails] has gone down to zero. *)
Theorem mockRetriever_fails_numFails_times k c inc tok v :
  (0 <= c)%Z -> (c + Z.of_nat k + 1 < 2 ^ 63)%Z ->
  fails_then_succeeds k (mkMock c (Z.of_nat k) false inc tok v)
    (if inc then (tok ++ sprintf_02d (c + Z.of_nat k + 1))%string else tok) v
    (mkMock (c + Z.of_nat k + 1) 0 false inc tok v).
Proof. exact (mock_fails_then_succeeds k c inc tok v). Qed.

(** X15.  The mock retriever with [permanentFail] set never succeeds:
    however often it is called, every call so far has failed, and the
    flag is still set. *)
Theorem mockRetriever_permanentFail_never_succeeds (r : mockRetriever) :
  permanentFail r = true ->
  always_fails r /\
  forall k r_end, keeps_failing k r r_end -> permanentFail r_end = true.
Proof.
  intros Hp. split.
  - intros k. destruct (mock_permanent_keeps_failing k r Hp) as (r_end & Hk & _).
    exists r_end. exact Hk.
  - intros k r_end Hk.
    destruct (mock_permanent_keeps_failing k r Hp) as (r' & Hk' & He).
    rewrite (keeps_failing_det k r r_end r' Hk Hk'). exact He.
Qed.

(** X16.  What the tests of the forced and unforced refresh expect, for
    every number of failures: on a refresher built as the tests build
    it, with the mock retriever failing [k] times first and no
    shutdown, [refresh] returns the validity less the refresh buffer and
    no error, the cache holds the mock's token, which [GetToken] then
    returns, and the mock has been called [k + 1] times. *)
Theorem refresh_on_mock_counts_calls k fuel force_ rb cached tok v ticks :
  (Z.of_nat k + 1 < 2 ^ 63)%Z ->
  k < fuel ->
  exists w',
    refresh (running_env ticks) fuel force_
      (scenario rb cached (mock_failing (Z.of_nat k) tok v)) =
      Returned (duration_sub v rb, None) w' /\
    token (self w') = tok /\
    called (retr w') = (Z.of_nat k + 1)%Z /\
    calls w' = k + 1 /\
    GetToken w' =
      Returned (tok, if (tok =? "")%string then Some ErrInvalidOrExpired else None) w'.
Proof.
  intros Hk Hfuel.
  destruct (refresh_retries_until_success (running_env ticks) k fuel force_
              (scenario rb cached (mock_failing (Z.of_nat k) tok v))
              tok v (mkMock (0 + Z.of_nat k + 1) 0 false false tok v))
    as (w' & Hr & Ht & Hm & _ & Hretr & Hc & _).
  - exact (mock_fails_then_succeeds k 0 false tok v (Z.le_refl 0) Hk).
  - intros i. reflexivity.
  - reflexivity.
  - exact Hfuel.
  - exists w'. split; [exact Hr|]. split; [exact Ht|].
    split; [rewrite Hretr; cbn; lia|]. split; [cbn in Hc; lia|].
    rewrite GetToken_returns by (rewrite Hm; reflexivity).
    rewrite Ht. reflexivity.
Qed.


(** ** The timer of the scheduler goroutine *)

Lemma loop_step_inv e s : loop_inv s -> loop_inv (loop_step e s).
Proof.
  destruct s as [p [a q]]. unfold loop_inv. cbn.
  destruct p; cbn; try contradiction;
    destruct e as [| | | | [|]]; cbn; auto;
    try (intros (-> & ->); cbn; auto; fail);
    intros ->; destruct q; cbn; auto.
Qed.

Lemma loop_run_inv evs : forall s, loop_inv s -> loop_inv (loop_run evs s).
Proof.
  induction evs as [|e evs IH]; intros s Hs; [exact Hs|].
  cbn. apply IH, loop_step_inv, Hs.
Qed.

(** X17.  The receive that drains [timer.C] after a forced refresh never
    blocks: whatever the order of expiries, selects and refreshes since
    the timer was made, the goroutine is never stuck there.  And
    whenever it stands at its select, the timer is either active with
    nothing in its channel, or expired with its value waiting: no stale
    value of an earlier arming is ever left to set off a timed
    refresh. *)
Theorem timer_drain_never_blocks evs :
  let s := loop_run evs (LoopSelect, time_NewTimer) in
  fst s <> LoopStuck /\
  (fst s = LoopSelect -> active (snd s) = negb (pending (snd s))) /\
  (fst s = LoopTimed -> active (snd s) = false /\ pending (snd s) = false).
Proof.
  intros s.
  assert (H : loop_inv s) by (apply loop_run_inv; reflexivity).
  unfold loop_inv in H.
  destruct (fst s); try contradiction;
    (split; [discriminate|]); split; intros E; try discriminate; auto.
Qed.


(** ** The further properties at work on the scenarios of the tests *)

Lemma refreshInner_exhausted_returns_last_error_witness :
  let env := running_env (Some 1) in
  let w := scenario buffer_5m "cachedToken123" (mock_permanent "" validity_3600s) in
  let r1 := mkMock 2 (-2) true false "" validity_3600s in
  exponentialTicks env (3 * time_Second)%Z = Some 1 /\
  fails_with ([mockRetrieverErr] ++ [mockRetrieverErr]) (retr w) r1 /\
  length [mockRetrieverErr] = 1 /\
  (forall i, i <= 2 -> shutdownAt env (selects w + i) = false) /\
  2 < 5 /\
  exists w',
    refreshInner env 5 (ExponentialBackOff (3 * time_Second)%Z) w =
      Returned ("", 0%Z, Some mockRetrieverErr) w' /\
    self w' = self w /\ retr w' = r1 /\
    calls w' = calls w + 2 /\ selects w' = selects w + 3.
Proof.
  intros env w r1.
  assert (Hn : exponentialTicks env (3 * time_Second)%Z = Some 1) by reflexivity.
  assert (Hk : fails_with ([mockRetrieverErr] ++ [mockRetrieverErr]) (retr w) r1).
  { do 2 (eexists; exists "", 0%Z; split; [reflexivity|]). reflexivity. }
  assert (Hs : forall i, i <= 2 -> shutdownAt env (selects w + i) = false)
    by (intros i _; reflexivity).
  assert (Hf : 2 < 5) by lia.
  split; [exact Hn|]. split; [exact Hk|]. split; [reflexivity|].
  split; [exact Hs|]. split; [exact Hf|].
  exact (refreshInner_exhausted_returns_last_error env 1 5 (3 * time_Second)%Z
           [mockRetrieverErr] mockRetrieverErr w r1 Hn Hk eq_refl Hs Hf).
Defined.

Lemma retriever_ErrShutdown_reads_as_shutdown_witness :
  let env := running_env (Some 0) in
  let w := @start_world scriptedRetriever
             (refresher_under_test buffer_5m "cachedToken123")
             [("", 0%Z, Some ErrShutdown)] in
  let s := mkSystem w RunTimed (Some (55 * time_Minute)%Z) 0 in
  exponentialTicks env (duration_sub (refreshBuffer (self w)) time_Second) = Some 0 /\
  fails_with ([] ++ [ErrShutdown]) (retr w) [] /\
  (forall i, i <= 1 -> shutdownAt env (selects w + i) = false) /\
  1 < 3 /\
  exists w',
    refresh env 3 false w = Returned (0%Z, Some ErrShutdown) w' /\
    self w' = self w /\ retr w' = [] /\ calls w' = calls w + 1 /\
    step env (RunRefresh 3) s = mkSystem w' Exited (timer s) (wakeups s).
Proof.
  intros env w s.
  assert (Hn : exponentialTicks env
                 (duration_sub (refreshBuffer (self w)) time_Second) = Some 0)
    by reflexivity.
  assert (Hk : fails_with ([] ++ [ErrShutdown]) (retr w) []).
  { eexists; exists "", 0%Z; split; reflexivity. }
  assert (Hs : forall i, i <= 1 -> shutdownAt env (selects w + i) = false)
    by (intros i _; reflexivity).
  assert (Hf : 1 < 3) by lia.
  split; [exact Hn|]. split; [exact Hk|]. split; [exact Hs|]. split; [exact Hf|].
  exact (retriever_ErrShutdown_reads_as_shutdown env 0 3 [] w [] s
           Hn Hk eq_refl Hs Hf eq_refl eq_refl).
Defined.

Lemma forced_refresh_holds_lock_throughout_witness :
  let env := running_env (Some 0) in
  let w := scenario buffer_5m "cachedToken123"
             (mock_failing 2 "newToken123" validity_3600s) in
  mu (self w) = mutex_free /\
  exists res w' h,
    refresh env 5 true w = Returned res w' /\
    history w' =
      history w ++
      (EvLock, with_mu (mkRWMutex true 0) (self w)) :: h ++ [(EvUnlock, self w')] /\
    locked_throughout ((EvLock, with_mu (mkRWMutex true 0) (self w)) :: h) /\
    mu (self w') = mutex_free.
Proof.
  intros env w. split; [reflexivity|].
  pose proof (forced_refresh_holds_lock_throughout env 5 w eq_refl) as H.
  destruct (refresh env 5 true w) as [res w'| | |] eqn:E; try contradiction.
  - destruct H as (h & Hh & Hl & _ & Hm).
    exists res, w', h. split; [reflexivity|]. split; [exact Hh|].
    split; [exact Hl|]. exact Hm.
  - vm_compute in E. discriminate E.
Defined.

Lemma forced_refresh_failed_fetch_overwrites_token_witness :
  let env := closing_env None 0 in
  let w := scenario buffer_5m "cachedToken123" (mock_permanent "" validity_3600s) in
  let r' := mkMock 1 (-1) true false "" validity_3600s in
  mu (self w) = mutex_free /\
  RetrieveToken (retr w) = (r', ("", 0%Z, Some mockRetrieverErr)) /\
  shutdownAt env (selects w) = true /\
  exists w',
    refresh env 1 true w = Returned (0%Z, Some ErrShutdown) w' /\
    token (self w') = "" /\ mu (self w') = mutex_free /\
    retr w' = r' /\ calls w' = S (calls w) /\
    GetToken w' = Returned ("", Some ErrInvalidOrExpired) w'.
Proof.
  intros env w r'.
  split; [reflexivity|]. split; [reflexivity|]. split; [reflexivity|].
  exact (forced_refresh_failed_fetch_overwrites_token env 0 w r' "" 0%Z
           mockRetrieverErr eq_refl eq_refl eq_refl).
Defined.

Lemma unforced_refresh_abandoned_keeps_stale_token_witness :
  let env := closing_env None 2 in
  let w := scenario buffer_5m "cachedToken123" (mock_permanent "" validity_3600s) in
  let r1 := mkMock 2 (-2) true false "" validity_3600s in
  let errs := [mockRetrieverErr; mockRetrieverErr] in
  fails_with errs (retr w) r1 /\
  (forall i, i < length errs -> shutdownAt env (selects w + i) = false) /\
  shutdownAt env (selects w + length errs) = true /\
  ticks_at_least (length errs)
    (NewTicker env (ExponentialBackOff
                      (duration_sub (refreshBuffer (self w)) time_Second))) /\
  length errs < 5 /\
  exists w' h,
    refresh env 5 false w = Returned (0%Z, Some ErrShutdown) w' /\
    token (self w') = "cachedToken123" /\ mu (self w') = mu (self w) /\
    retr w' = r1 /\ calls w' = calls w + length errs /\
    history w' = history w ++ h /\
    readers_find (token (self w)) (mu (self w)) h.
Proof.
  intros env w r1 errs.
  assert (Hk : fails_with errs (retr w) r1).
  { do 2 (eexists; exists "", 0%Z; split; [reflexivity|]). reflexivity. }
  assert (Hs : forall i, i < length errs -> shutdownAt env (selects w + i) = false).
  { intros i Hi. cbn in Hi. destruct i as [|[|i]]; [reflexivity | reflexivity | lia]. }
  assert (Hd : shutdownAt env (selects w + length errs) = true) by reflexivity.
  assert (Ht : ticks_at_least (length errs)
                 (NewTicker env (ExponentialBackOff
                    (duration_sub (refreshBuffer (self w)) time_Second))))
    by exact I.
  assert (Hf : length errs < 5) by (cbn; lia).
  split; [exact Hk|]. split; [exact Hs|]. split; [exact Hd|].
  split; [exact Ht|]. split; [exact Hf|].
  exact (unforced_refresh_abandoned_keeps_stale_token env 5 errs w r1 Hk Hs Hd Ht Hf).
Defined.

Lemma refresh_releases_lock_and_keeps_channels_witness :
  let env := closing_env (Some 0) 3 in
  let w := scenario buffer_5m "cachedToken123" (mock_permanent "" validity_3600s) in
  mu (self w) = mutex_free /\
  exists res w',
    refresh env 5 false w = Returned res w' /\
    mu (self w') = mutex_free /\
    defers w' = defers w /\
    refreshBuffer (self w') = refreshBuffer (self w) /\
    force (self w') = force (self w).
Proof.
  intros env w. split; [reflexivity|].
  pose proof (refresh_releases_lock_and_keeps_channels env 5 false w eq_refl) as H.
  destruct (refresh env 5 false w) as [res w'| | |] eqn:E; try contradiction.
  - destruct H as (Hm & Hd & Hrb & Hf & _).
    exists res, w'. split; [reflexivity|]. split; [exact Hm|]. split; [exact Hd|].
    split; [exact Hrb|]. exact Hf.
  - vm_compute in E. discriminate E.
Defined.

Lemma unforced_expiry_then_shutdown_leaves_token_empty_witness :
  let env := closing_env (Some 0) 3 in
  let w := scenario buffer_5m "cachedToken123" (mock_permanent "" validity_3600s) in
  let r_mid := mkMock 1 (-1) true false "" validity_3600s in
  let r1 := mkMock 2 (-2) true false "" validity_3600s in
  exponentialTicks env (duration_sub (refreshBuffer (self w)) time_Second) = Some 0 /\
  fails_with ([] ++ [mockRetrieverErr]) (retr w) r_mid /\
  is_ErrShutdown mockRetrieverErr = false /\
  fails_with [mockRetrieverErr] r_mid r1 /\
  (forall i, i < 2 + 1 -> shutdownAt env (selects w + i) = false) /\
  shutdownAt env (selects w + 2 + 1) = true /\
  mu (self w) = mutex_free /\
  exists w',
    refresh env 5 false w = Returned (0%Z, Some ErrShutdown) w' /\
    token (self w') = "" /\ mu (self w') = mutex_free /\
    retr w' = r1 /\ calls w' = calls w + 1 + 1 /\
    GetToken w' = Returned ("", Some ErrInvalidOrExpired) w'.
Proof.
  intros env w r_mid r1.
  assert (Hn : exponentialTicks env
                 (duration_sub (refreshBuffer (self w)) time_Second) = Some 0)
    by reflexivity.
  assert (Hk : fails_with ([] ++ [mockRetrieverErr]) (retr w) r_mid).
  { eexists; exists "", 0%Z; split; reflexivity. }
  assert (Hk2 : fails_with [mockRetrieverErr] r_mid r1).
  { eexists; exists "", 0%Z; split; reflexivity. }
  assert (Hs : forall i, i < 2 + 1 -> shutdownAt env (selects w + i) = false).
  { intros i Hi. destruct i as [|[|[|i]]]; try reflexivity. lia. }
  assert (Hd : shutdownAt env (selects w + 2 + 1) = true) by reflexivity.
  split; [exact Hn|]. split; [exact Hk|]. split; [reflexivity|].
  split; [exact Hk2|]. split; [exact Hs|]. split; [exact Hd|].
  split; [reflexivity|].
  refine (unforced_expiry_then_shutdown_leaves_token_empty env 0 5 []
            mockRetrieverErr [mockRetrieverErr] w r_mid r1
            Hn Hk eq_refl eq_refl Hk2 Hs Hd _ _ eq_refl); cbn; lia.
Defined.

Lemma exited_goroutine_never_refreshes_witness :
  let env := running_env None in
  let s := mkSystem (scenario buffer_5m "cachedToken123"
                       (mock_failing 0 "newToken123" validity_3600s))
                    Exited (Some (55 * time_Minute)%Z) 1 in
  let acts := [CallRefresh; TimerFires; RunRefresh 3; CallClose; CallRefresh] in
  pc s = Exited /\
  pc (run env acts s) = Exited /\
  token (self (world (run env acts s))) = "cachedToken123" /\
  calls (world (run env acts s)) = 0.
Proof.
  intros env s acts. split; [reflexivity|].
  destruct (exited_goroutine_never_refreshes env acts s eq_refl)
    as (H1 & H2 & _ & H4 & _).
  split; [exact H1|]. split; [exact H2|]. exact H4.
Defined.

Lemma Close_stops_parked_goroutine_witness :
  let env := running_env None in
  let r := mock_failing 0 "newToken123" validity_3600s in
  let s := run env [RunRefresh 1] (boot buffer_5m r) in
  let s' := run env [CallClose; TakeDone] s in
  pc s = AtSelect /\
  pc s' = Exited /\
  closed (done (self (world s'))) = true /\
  token (self (world s')) = "newToken123".
Proof.
  intros env r s s'.
  assert (Hp : pc s = AtSelect) by reflexivity.
  split; [exact Hp|].
  destruct (Close_stops_parked_goroutine env buffer_5m r [RunRefresh 1] Hp)
    as (H1 & H2 & H3 & _).
  split; [exact H1|]. split; [exact H2|]. exact H3.
Defined.

Lemma refresh_never_returns_while_retriever_fails_witness :
  let env := running_env (Some 1) in
  let w := scenario buffer_5m "cachedToken123" (mock_permanent "" validity_3600s) in
  always_fails (retr w) /\
  never_shutdown env /\
  mu (self w) = mutex_free /\
  refresh env 40 true w = OutOfFuel.
Proof.
  intros env w.
  assert (Ha : always_fails (retr w)).
  { intros k. destruct (mock_permanent_keeps_failing k (retr w) eq_refl)
      as (r_end & Hk & _). exists r_end. exact Hk. }
  assert (Hn : never_shutdown env) by (intro i; reflexivity).
  split; [exact Ha|]. split; [exact Hn|]. split; [reflexivity|].
  exact (refresh_never_returns_while_retriever_fails env 40 true w Ha Hn eq_refl).
Defined.

Lemma mockRetriever_fails_numFails_times_witness :
  (0 <= 0)%Z /\ (0 + Z.of_nat 3 + 1 < 2 ^ 63)%Z /\
  fails_then_succeeds 3 (mkMock 0 (Z.of_nat 3) false true "newToken" validity_3600s)
    ("newToken" ++ sprintf_02d (0 + Z.of_nat 3 + 1))%string validity_3600s
    (mkMock (0 + Z.of_nat 3 + 1) 0 false true "newToken" validity_3600s).
Proof.
  assert (H0 : (0 <= 0)%Z) by lia.
  assert (H1 : (0 + Z.of_nat 3 + 1 < 2 ^ 63)%Z) by (vm_compute; reflexivity).
  split; [exact H0|]. split; [exact H1|].
  exact (mockRetriever_fails_numFails_times 3 0 true "newToken" validity_3600s H0 H1).
Defined.

Lemma mockRetriever_permanentFail_never_succeeds_witness :
  let r := mock_permanent "" validity_3600s in
  permanentFail r = true /\
  always_fails r /\
  forall k r_end, keeps_failing k r r_end -> permanentFail r_end = true.
Proof.
  intros r. split; [reflexivity|].
  exact (mockRetriever_permanentFail_never_succeeds r eq_refl).
Defined.

Lemma refresh_on_mock_counts_calls_witness :
  (Z.of_nat 2 + 1 < 2 ^ 63)%Z /\ 2 < 5 /\
  exists w',
    refresh (running_env (Some 0)) 5 true
      (scenario time_Millisecond "" (mock_failing (Z.of_nat 2) "newToken123"
                                       validity_3600s)) =
      Returned (duration_sub validity_3600s time_Millisecond, None) w' /\
    token (self w') = "newToken123" /\
    called (retr w') = (Z.of_nat 2 + 1)%Z /\
    calls w' = 2 + 1 /\
    GetToken w' = Returned ("newToken123", None) w'.
Proof.
  assert (H1 : (Z.of_nat 2 + 1 < 2 ^ 63)%Z) by (vm_compute; reflexivity).
  assert (H2 : 2 < 5) by lia.
  split; [exact H1|]. split; [exact H2|].
  exact (refresh_on_mock_counts_calls 2 5 true time_Millisecond ""
           "newToken123" validity_3600s (Some 0) H1 H2).
Defined.
